(** * lofar_helpers: the DP3 subtraction wrapper and the Monte-Carlo report

    A shallow embedding of
    - [subtract/subtract_with_dp3.py]: [get_largest_divider] and the
      [SubtractDP3] command builder ([predict], [moreDP3], [run]);
    - [analysis/montecarlo_results.py]: the result-file collector and the
      statistics it prints.

    Python integers are [Z]; Python strings are [string] (the character
    tests below are the ASCII part of Python's); Python floats are
    idealised as real numbers [R]; exceptions are the constructors of
    [exn], threaded by the [result] monad.  What the scripts print to
    standard output while building commands is not modelled. *)

From Stdlib Require Import ZArith List String Ascii Bool Arith Lia.
From Stdlib Require Import DecimalString.
From Stdlib Require Import Reals Lra.
From Stdlib Require DecimalPos DecimalZ.
Import ListNotations.

Set Implicit Arguments.

(** ** Exceptions and results *)

Inductive exn : Type :=
| IndexError
| ValueError
| ZeroDivisionError
| NoSuchNodeError
| IOError
| CalledProcessError
| SystemExit (msg : string).

Inductive result (A : Type) : Type :=
| Ok (a : A)
| Raise (e : exn).

Arguments Ok {A} a.
Arguments Raise {A} e.

Definition bind {A B : Type} (r : result A) (k : A -> result B) : result B :=
  match r with
  | Ok a => k a
  | Raise e => Raise e
  end.

Declare Scope py_scope.
Delimit Scope py_scope with py.
Notation "x <- r ;; k" := (bind r (fun x => k))
  (at level 61, r at next level, right associativity) : py_scope.

(** ** The Python built-ins the two scripts use *)

Module Py.

Local Open Scope string_scope.
Local Open Scope char_scope.

Definition nl : string := String (ascii_of_nat 10) EmptyString.

(** [c in '0123456789'] *)
Definition is_digit (c : ascii) : bool :=
  let n := nat_of_ascii c in (48 <=? n)%nat && (n <=? 57)%nat.

(** [c.isalpha()], ASCII letters *)
Definition is_alpha (c : ascii) : bool :=
  let n := nat_of_ascii c in
  ((65 <=? n)%nat && (n <=? 90)%nat) || ((97 <=? n)%nat && (n <=? 122)%nat).

(** the characters [str.split()] and [str.strip()] treat as white space *)
Definition is_space (c : ascii) : bool :=
  let n := nat_of_ascii c in
  ((9 <=? n)%nat && (n <=? 13)%nat) || ((28 <=? n)%nat && (n <=? 32)%nat).

Fixpoint all_chars (p : ascii -> bool) (s : string) : bool :=
  match s with
  | EmptyString => true
  | String c s' => p c && all_chars p s'
  end.

(** [s.isdigit()]: at least one character, all of them digits *)
Definition isdigit (s : string) : bool :=
  match s with
  | EmptyString => false
  | _ => all_chars is_digit s
  end.

(** [s[-1]] *)
Fixpoint last_char (s : string) : result ascii :=
  match s with
  | EmptyString => Raise IndexError
  | String c EmptyString => Ok c
  | String _ s' => last_char s'
  end.

(** [l[i]] for a Python list, negative indices counting from the end *)
Definition index {A : Type} (l : list A) (i : Z) : result A :=
  let n := Z.of_nat (List.length l) in
  let j := if (i <? 0)%Z then (n + i)%Z else i in
  if ((0 <=? j) && (j <? n))%Z then
    match nth_error l (Z.to_nat j) with
    | Some a => Ok a
    | None => Raise IndexError
    end
  else Raise IndexError.

(** [sep.join(l)] *)
Definition join (sep : string) (l : list string) : string :=
  String.concat sep l.

(** [str(z)] for an integer *)
Definition str_of_Z (z : Z) : string :=
  NilZero.string_of_int (Z.to_int z).

(** [str(n)] for a loop counter *)
Definition str_of_nat (n : nat) : string := str_of_Z (Z.of_nat n).

(** [s.replace(old, new)] for a non-empty [old]: occurrences are replaced
    from the left and do not overlap.  [skip] counts the characters of an
    occurrence that are still to be dropped. *)
Fixpoint replace_from (old new : string) (skip : nat) (s : string) : string :=
  match s with
  | EmptyString => EmptyString
  | String c s' =>
      match skip with
      | S k => replace_from old new k s'
      | O =>
          if String.prefix old s
          then (new ++ replace_from old new (String.length old - 1) s')%string
          else String c (replace_from old new 0 s')
      end
  end.

Definition replace (old new s : string) : string := replace_from old new 0 s.

(** [s.split()]: maximal runs of characters that are not white space *)
Fixpoint split_ws_from (cur : string) (s : string) : list string :=
  match s with
  | EmptyString =>
      match cur with EmptyString => [] | _ => [cur] end
  | String c s' =>
      if is_space c then
        match cur with
        | EmptyString => split_ws_from EmptyString s'
        | _ => cur :: split_ws_from EmptyString s'
        end
      else split_ws_from (cur ++ String c EmptyString) s'
  end.

Definition split_ws (s : string) : list string := split_ws_from EmptyString s.

(** [s.split(sep)] for a one-character separator: empty fields are kept *)
Fixpoint split_on_from (sep : ascii) (cur : string) (s : string) : list string :=
  match s with
  | EmptyString => [cur]
  | String c s' =>
      if Ascii.eqb c sep then cur :: split_on_from sep EmptyString s'
      else split_on_from sep (cur ++ String c EmptyString) s'
  end.

Definition split_on (sep : ascii) (s : string) : list string :=
  split_on_from sep EmptyString s.

(** [sub in s] *)
Fixpoint contains (sub s : string) : bool :=
  String.prefix sub s ||
  match s with
  | EmptyString => false
  | String _ s' => contains sub s'
  end.

(** [s.strip()] *)
Fixpoint lstrip (s : string) : string :=
  match s with
  | String c s' => if is_space c then lstrip s' else s
  | EmptyString => EmptyString
  end.

Fixpoint rstrip (s : string) : string :=
  match s with
  | EmptyString => EmptyString
  | String c s' =>
      match rstrip s' with
      | EmptyString => if is_space c then EmptyString else String c EmptyString
      | t => String c t
      end
  end.

Definition strip (s : string) : string := rstrip (lstrip s).

Definition digit_val (c : ascii) : Z := Z.of_nat (nat_of_ascii c - 48).

(** The digits of an integer literal, most significant first; a single
    underscore may separate two digits.  [prev] tells whether the previous
    character was a digit. *)
Fixpoint int_digits (acc : Z) (prev : bool) (s : string) : result Z :=
  match s with
  | EmptyString => if prev then Ok acc else Raise ValueError
  | String c s' =>
      if is_digit c then int_digits (10 * acc + digit_val c) true s'
      else if Ascii.eqb c "_" && prev then
        match s' with
        | String d _ => if is_digit d then int_digits acc false s' else Raise ValueError
        | EmptyString => Raise ValueError
        end
      else Raise ValueError
  end.

(** [int(s)] for a string, base ten: surrounding white space, an optional
    sign, then digits. *)
Definition int_of_string (s : string) : result Z :=
  match strip s with
  | String "-" t => (z <- int_digits 0 false t ;; Ok (- z)%Z)%py
  | String "+" t => int_digits 0 false t
  | t => int_digits 0 false t
  end.

(** [range(n)] *)
Definition range (n : Z) : list Z := map Z.of_nat (seq 0 (Z.to_nat n)).

(** [enumerate(l)], counting from [n] *)
Fixpoint enumerate_from {A : Type} (n : nat) (l : list A) : list (nat * A) :=
  match l with
  | [] => []
  | a :: l' => (n, a) :: enumerate_from (S n) l'
  end.

Definition enumerate {A : Type} (l : list A) : list (nat * A) := enumerate_from 0 l.

End Py.

(** ** subtract/subtract_with_dp3.py *)

Module Subtract.

Import Py.
Local Open Scope string_scope.
Local Open Scope py_scope.

(** *** [get_largest_divider] *)

(** The body of [for r in range(max)[::-1]], over the candidates that are
    still to be tried; leaving the loop reaches [sys.exit]. *)
Fixpoint first_divider (inp : Z) (rs : list Z) : result Z :=
  match rs with
  | [] => Raise (SystemExit "ERROR: code should not arrive here.")
  | r :: rs' =>
      if (r =? 0)%Z then Raise ZeroDivisionError
      else if (inp mod r =? 0)%Z then Ok r
      else first_divider inp rs'
  end.

Definition get_largest_divider (inp max : Z) : result Z :=
  first_divider inp (rev (range max)).

(** the default [max=1000] *)
Definition get_largest_divider_default (inp : Z) : result Z :=
  get_largest_divider inp 1000.

(** The wide-field branch of the main program:
    [avg = get_largest_divider(channum, int(polygon['avg'].values[0]))]
    followed by [freqavg = int(avg)]. *)
Definition widefield_freqavg (channum requested : Z) : result Z :=
  avg <- get_largest_divider channum requested ;; Ok avg.

(** *** The solution file read by [isfulljones] and [moreDP3] *)

(** One solution table of [sol000]: the [AXES] attribute of its [val]
    array and, when the table has one, its [pol] axis. *)
Record soltab : Type := {
  AXES : string;
  pol : option (list string)
}.

(** [T.root.sol000._v_groups]: the solution tables by name, in the order
    in which [keys()] yields them. *)
Record h5file : Type := {
  sol000 : list (string * soltab)
}.

Section Builder.

(** [tables.open_file]: the solution files that exist, by path. *)
Variable open_file : string -> result h5file.

Definition isfulljones (h5 : string) : result bool :=
  T <- open_file h5 ;;
  first <- index (sol000 T) 0 ;;
  if contains "pol" (AXES (snd first)) then
    match pol (snd first) with
    | None => Raise NoSuchNodeError
    | Some p => Ok (Nat.eqb (List.length p) 4)
    end
  else Ok false.

(** *** The builder's state *)

Record SubtractDP3 : Type := {
  mslist : list string;
  cmd : list string;
  steps : list string
}.

Definition base_cmd : list string :=
  ["DP3"; "msin.missingdata=True"; "msin.orderms=False";
   "msout.storagemanager=dysco"].

(** [__init__] *)
Definition init (ms : list string) : SubtractDP3 :=
  {| mslist := ms; cmd := base_cmd; steps := [] |}.

(** [self.cmd += toks] *)
Definition add_cmd (toks : list string) (self : SubtractDP3) : SubtractDP3 :=
  {| mslist := mslist self; cmd := cmd self ++ toks; steps := steps self |}.

(** [self.steps.append(name)] *)
Definition add_step (name : string) (self : SubtractDP3) : SubtractDP3 :=
  {| mslist := mslist self; cmd := cmd self; steps := steps self ++ [name] |}.

(** [f'{x}'] for an optional string argument: [None] prints as [None] *)
Definition fmt_opt (o : option string) : string :=
  match o with
  | Some s => s
  | None => "None"
  end.

(** *** [predict] *)

Definition predict_tokens (sourcedb h5parm : option string) : list string :=
  ["predict.type = predict";
   "predict.sourcedb = " ++ fmt_opt sourcedb;
   "predict.usebeammodel = True";
   "predict.usebeammodel = True";
   "predict.beammode = array_factor";
   "predict.applycal.steps = [amp, phase]";
   "predict.applycal.amp.correction = amplitude000";
   "predict.applycal.phase.correction = phase000";
   "predict.applycal.parmdb = " ++ fmt_opt h5parm;
   "msout=."].

Definition subtract_tokens : list string :=
  ["predict.operation = subtract"; "msout.datacolumn = SUBTRACT_DATA"].

Definition predict (sourcedb : option string) (subtract : bool)
    (h5parm : option string) (self : SubtractDP3) : SubtractDP3 :=
  let self := add_step "predict" self in
  let self := add_cmd (predict_tokens sourcedb h5parm) self in
  if subtract then add_cmd subtract_tokens self else self.

(** *** [moreDP3] *)

(** An averaging argument: a string from the command line, or the integer
    the wide-field branch computes. *)
Inductive pyval : Type :=
| PyInt (z : Z)
| PyStr (s : string).

Definition str (v : pyval) : string :=
  match v with
  | PyInt z => str_of_Z z
  | PyStr s => s
  end.

Definition int (v : pyval) : result Z :=
  match v with
  | PyInt z => Ok z
  | PyStr s => int_of_string s
  end.

(** 1) PHASESHIFT *)
Definition stage_phaseshift (phaseshift : option string) (self : SubtractDP3)
    : result SubtractDP3 :=
  match phaseshift with
  | None => Ok self
  | Some p =>
      let phasecenter := split_on "," (replace "]" EmptyString (replace "[" EmptyString p)) in
      p0 <- index phasecenter 0 ;;
      p1 <- index phasecenter 1 ;;
      let phasecenter := "[" ++ p0 ++ "," ++ p1 ++ "]" in
      let self := add_step "ps" self in
      Ok (add_cmd ["ps.type=phaseshifter"; "ps.phasecenter=" ++ phasecenter] self)
  end.

(** 2) APPLY BEAM *)
Definition stage_applybeam (applybeam : bool) (self : SubtractDP3) : SubtractDP3 :=
  if applybeam then
    add_cmd ["beam.type=applybeam"; "beam.direction=[]"; "beam.updateweights=True"]
            (add_step "beam" self)
  else self.

(** 3) APPLYCAL, the loop of the branch that is not fulljones *)
Fixpoint applycal_loop (applycal_h5 : string) (ac_count : nat) (keys : list string)
    (self : SubtractDP3) : SubtractDP3 :=
  match keys with
  | [] => self
  | corr :: keys' =>
      let ac := "ac" ++ str_of_nat ac_count in
      let self := add_cmd [ac ++ ".type=applycal";
                           ac ++ ".parmdb=" ++ applycal_h5;
                           ac ++ ".correction=" ++ corr] self in
      let self := add_step ac self in
      applycal_loop applycal_h5 (S ac_count) keys' self
  end.

Definition fulljones_tokens (applycal_h5 : string) : list string :=
  ["ac.type=applycal"; "ac.parmdb=" ++ applycal_h5; "ac.correction=fulljones";
   "ac.soltab=[amplitude000,phase000]"].

Definition stage_applycal (applycal_h5 : option string) (self : SubtractDP3)
    : result SubtractDP3 :=
  match applycal_h5 with
  | None => Ok self
  | Some h5 =>
      fj <- isfulljones h5 ;;
      if fj then Ok (add_cmd (fulljones_tokens h5) (add_step "ac" self))
      else
        T <- open_file h5 ;;
        Ok (applycal_loop h5 0 (map fst (sol000 T)) self)
  end.

(** 4) AVERAGING *)
Definition freq_token (freqavg : pyval) : result string :=
  if isdigit (str freqavg) then
    n <- int freqavg ;; Ok ("avg.freqstep=" ++ str_of_Z n)
  else
    c <- last_char (str freqavg) ;;
    if negb (is_alpha c) then
      n <- int freqavg ;; Ok ("avg.freqstep=" ++ str_of_Z n)
    else Ok ("avg.freqresolution=" ++ str freqavg).

Definition time_token (timeavg : pyval) : result string :=
  if isdigit (str timeavg) then
    n <- int timeavg ;; Ok ("avg.timestep=" ++ str_of_Z n)
  else Ok ("avg.timeresolution=" ++ str timeavg).

Definition stage_averaging (freqavg timeavg : option pyval) (self : SubtractDP3)
    : result SubtractDP3 :=
  match freqavg, timeavg with
  | None, None => Ok self
  | _, _ =>
      let self := add_cmd ["avg.type=averager"] (add_step "avg" self) in
      self <- match freqavg with
              | Some f => t <- freq_token f ;; Ok (add_cmd [t] self)
              | None => Ok self
              end ;;
      match timeavg with
      | Some t => tok <- time_token t ;; Ok (add_cmd [tok] self)
      | None => Ok self
      end
  end.

(** [str(self.steps)]: the step names are letters and digits, each is
    printed between single quotes. *)
Definition str_of_list (l : list string) : string :=
  "[" ++ join ", " (map (fun s => "'" ++ s ++ "'") l) ++ "]".

Definition steps_token (self : SubtractDP3) : string :=
  "steps=" ++ replace "'" EmptyString (replace " " EmptyString (str_of_list (steps self))).

(** the [msin=]/[msout=] pair of one measurement set *)
Definition io_tokens (ms : string) : list string :=
  ["msin=" ++ ms; "msout=sub_" ++ ms].

Definition stage_io (concat : bool) (self : SubtractDP3) : SubtractDP3 :=
  if concat then
    add_cmd ["msin=" ++ join "," (mslist self); "msout=subtract_concat.ms"] self
  else
    fold_left (fun self ms => add_cmd (io_tokens ms) self) (mslist self) self.

Definition moreDP3 (phaseshift : option string) (freqavg timeavg : option pyval)
    (concat applybeam : bool) (applycal_h5 : option string)
    (self : SubtractDP3) : result SubtractDP3 :=
  let self := add_cmd ["msin.datacolumn=SUBTRACT_DATA"] self in
  self <- stage_phaseshift phaseshift self ;;
  let self := stage_applybeam applybeam self in
  self <- stage_applycal applycal_h5 self ;;
  self <- stage_averaging freqavg timeavg self ;;
  let self := add_cmd [steps_token self] self in
  Ok (stage_io concat self).

(** *** [run] *)

(** What [run] leaves outside the object: the command files it has written
    (path and content, a later write of a path replacing the earlier one)
    and the command lines handed to the shell, in order. *)
Record world : Type := {
  files : list (string * string);
  calls : list string
}.

Definition empty_world : world := {| files := []; calls := [] |}.

(** [open(name, "w")], [write], [close] *)
Definition write_file (name content : string) (w : world) : world :=
  {| files := filter (fun f => negb (String.eqb (fst f) name)) (files w)
              ++ [(name, content)];
     calls := calls w |}.

Definition record_call (line : string) (w : world) : world :=
  {| files := files w; calls := calls w ++ [line] |}.

(** [sh line] tells whether the shell command [line] exits with status
    zero; [check_output] raises [CalledProcessError] when it does not. *)
Variable sh : string -> bool.

Definition cmd_file (type : string) (n : nat) : string :=
  "dp3" ++ type ++ "_" ++ str_of_nat n ++ ".cmd".

(** one turn of [for n, ms in enumerate(self.mslist)] *)
Definition run_body (type : string) (n : nat) (ms : string)
    (w : world) (self : SubtractDP3) : world * result SubtractDP3 :=
  let self := add_cmd (io_tokens ms) self in
  let w := write_file (cmd_file type n) (join nl (cmd self)) w in
  let line := join " " (cmd self) in
  let w := record_call line w in
  if sh line then (w, Ok self) else (w, Raise CalledProcessError).

Fixpoint run_loop (type : string) (items : list (nat * string))
    (w : world) (self : SubtractDP3) : world * result SubtractDP3 :=
  match items with
  | [] => (w, Ok self)
  | (n, ms) :: rest =>
      match run_body type n ms w self with
      | (w, Ok self) => run_loop type rest w self
      | (w, Raise e) => (w, Raise e)
      end
  end.

Definition run (type : string) (w : world) (self : SubtractDP3)
    : world * result SubtractDP3 :=
  match run_loop type (enumerate (mslist self)) w self with
  | (w, Ok self) =>
      (w, Ok {| mslist := mslist self; cmd := base_cmd; steps := steps self |})
  | (w, Raise e) => (w, Raise e)
  end.

End Builder.

End Subtract.

(** ** analysis/montecarlo_results.py *)

Module MonteCarlo.

Import Py.
Local Open Scope string_scope.
Local Open Scope py_scope.

(** *** The result-file collector *)

(** The six lists one loop of the script fills, in the script's naming for
    the first field: [a399_results_cb], [a399_cb_err], [a399_pearson_cb],
    [a399_pearson_cb_err], [a399_spearman_cb], [a399_spearman_cb_err]. *)
Record columns (A : Type) : Type := {
  results : list A;
  results_err : list A;
  pearson : list A;
  pearson_err : list A;
  spearman : list A;
  spearman_err : list A
}.

Definition no_columns (A : Type) : columns A :=
  {| results := []; results_err := []; pearson := []; pearson_err := [];
     spearman := []; spearman_err := [] |}.

Section Collector.

Variable A : Type.

(** Python's [float]: the number a string denotes, or [ValueError].  With
    [A := string] and [float := Ok] the collector returns the very
    strings it hands to [float]. *)
Variable float : string -> result A.

(** the text after which the slope and its error stand on line 3 *)
Definition slope_prefix : string := "Linear regression slope is ".

(** [lines[i].split()[-1]] *)
Definition last_token (lines : list string) (i : Z) : result string :=
  l <- index lines i ;; index (split_ws l) (-1).

(** [lines[i].split()[0].replace('(','').replace(',','')] *)
Definition first_number (lines : list string) (i : Z) : result string :=
  l <- index lines i ;;
  t <- index (split_ws l) 0 ;;
  Ok (replace "," EmptyString (replace "(" EmptyString t)).

(** The body of one loop, for the lines of one file.  The six loops of the
    script differ in one place only, the line the Pearson error is read
    from, which is the parameter [pearson_err_line]. *)
Definition read_file (pearson_err_line : Z) (lines : list string)
    (c : columns A) : result (columns A) :=
  s <- first_number lines (-4) ;; p <- float s ;;
  s <- last_token lines pearson_err_line ;; pe <- float s ;;
  s <- first_number lines (-2) ;; sp <- float s ;;
  s <- last_token lines (-1) ;; spe <- float s ;;
  l <- index lines 3 ;;
  s <- index (split_ws (replace slope_prefix EmptyString l)) 0 ;; r <- float s ;;
  l <- index lines 3 ;;
  s <- index (split_ws (replace slope_prefix EmptyString l)) (-1) ;; re <- float s ;;
  Ok {| results := results c ++ [r];
        results_err := results_err c ++ [re];
        pearson := pearson c ++ [p];
        pearson_err := pearson_err c ++ [pe];
        spearman := spearman c ++ [sp];
        spearman_err := spearman_err c ++ [spe] |}.

(** [for name in files: with open(name) as f: lines = f.readlines() ...] *)
Fixpoint collect_from (pearson_err_line : Z) (files : list (list string))
    (c : columns A) : result (columns A) :=
  match files with
  | [] => Ok c
  | lines :: files' =>
      c' <- read_file pearson_err_line lines c ;;
      collect_from pearson_err_line files' c'
  end.

Definition collect (pearson_err_line : Z) (files : list (list string))
    : result (columns A) :=
  collect_from pearson_err_line files (no_columns A).

(** the six loops, in the order of the script *)
Definition collect_a399_cb := collect (-3).
Definition collect_a401_cb := collect (-3).
Definition collect_bridge_cb := collect (-3).
Definition collect_a399_rudnick := collect (-3).
Definition collect_a401_rudnick := collect (-1).
Definition collect_bridge_rudnick := collect (-1).

End Collector.

(** *** numpy and scipy on lists of numbers *)

Local Open Scope R_scope.

(** [np.sum] *)
Definition np_sum (l : list R) : R := fold_left Rplus l 0.

(** [np.mean] *)
Definition np_mean (l : list R) : R := np_sum l / INR (List.length l).

(** [np.power(l, 2)] *)
Definition np_power2 (l : list R) : list R := map (fun x => x ^ 2) l.

(** [1/a] for an array [a] *)
Definition np_recip (l : list R) : list R := map (fun x => 1 / x) l.

(** [a/x] for an array [a] and a number [x] *)
Definition np_div_scalar (l : list R) (x : R) : list R := map (fun y => y / x) l.

(** [np.divide(a, b)] for one-dimensional arguments: elementwise when the
    lengths agree, a one-element argument is broadcast, any other pair of
    lengths is a [ValueError]. *)
Definition np_divide (a b : list R) : result (list R) :=
  if Nat.eqb (List.length a) (List.length b) then
    Ok (map (fun p => fst p / snd p) (combine a b))
  else
    match a, b with
    | [x], _ => Ok (map (fun y => x / y) b)
    | _, [y] => Ok (map (fun x => x / y) a)
    | _, _ => Raise ValueError
    end.

(** [scipy.stats.sem], with its default [ddof=1]: the sample standard
    deviation over the square root of the sample size. *)
Definition np_std_ddof1 (l : list R) : R :=
  sqrt (np_sum (map (fun x => (x - np_mean l) ^ 2) l) / (INR (List.length l) - 1)).

Definition sem (l : list R) : R := np_std_ddof1 l / sqrt (INR (List.length l)).

(** *** The statistics aggregator *)

(** [uncertainty] *)
Definition uncertainty (d_err : list R) : R :=
  let unc := np_recip (np_power2 d_err) in
  sqrt (1 / np_sum unc).

(** [np.sum(np.divide(v, np.power(e, 2)))/np.sum(1/np.power(e,2))], the
    first number of every [Slope] print and of the [Total] prints of
    Pearson R and Spearman R *)
Definition weighted_mean (v e : list R) : result R :=
  q <- np_divide v (np_power2 e) ;;
  Ok (np_sum q / np_sum (np_recip (np_power2 e))).

(** [sem(v)*np.sqrt(np.sum(np.power(e/np.sum(np.power(e, 2)), 2)))] *)
Definition variant_slope_error (v e : list R) : R :=
  sem v * sqrt (np_sum (np_power2 (np_div_scalar e (np_sum (np_power2 e))))).

(** One printed line: the value and what follows [+-]. *)
Definition line : Type := (R * R)%type.

(** The three lines printed for one field. *)
Record block : Type := {
  Slope : line;
  Pearson_R : line;
  Spearman_R : line
}.

(** The lines of one field under [UV-Subtract:] or under [Rudnick:]. *)
Definition variant_block (c : columns R) : result block :=
  m <- weighted_mean (results c) (results_err c) ;;
  Ok {| Slope := (m, variant_slope_error (results c) (results_err c));
        Pearson_R := (np_mean (pearson c), sem (pearson c));
        Spearman_R := (np_mean (spearman c), sem (spearman c)) |}.

(** The lines of one field under [Total:]; the lists of the two variants
    are concatenated, rudnick first. *)
Definition total_block (rudnick cb : columns R) : result block :=
  let tot := (results rudnick ++ results cb)%list in
  let err := (results_err rudnick ++ results_err cb)%list in
  let pearson_tot := (pearson rudnick ++ pearson cb)%list in
  let pearson_err := (pearson_err rudnick ++ pearson_err cb)%list in
  let spearman_tot := (spearman rudnick ++ spearman cb)%list in
  let spearman_err := (spearman_err rudnick ++ spearman_err cb)%list in
  m <- weighted_mean tot err ;;
  p <- weighted_mean pearson_tot pearson_err ;;
  s <- weighted_mean spearman_tot spearman_err ;;
  Ok {| Slope := (m, uncertainty err);
        Pearson_R := (p, uncertainty pearson_err);
        Spearman_R := (s, uncertainty spearman_err) |}.

(** The files the six glob patterns match, each as its list of lines. *)
Record inputs : Type := {
  a399_rudnick : list (list string);
  a401_rudnick : list (list string);
  bridge_rudnick : list (list string);
  a399_cb : list (list string);
  a401_cb : list (list string);
  bridge_cb : list (list string)
}.

(** Everything the script prints, in print order: per field A399, A401,
    bridge under each heading. *)
Record report : Type := {
  UV_Subtract : block * block * block;
  Rudnick : block * block * block;
  Total : block * block * block
}.

Definition script (float : string -> result R) (i : inputs) : result report :=
  c399 <- collect_a399_cb float (a399_cb i) ;;
  c401 <- collect_a401_cb float (a401_cb i) ;;
  cbr <- collect_bridge_cb float (bridge_cb i) ;;
  r399 <- collect_a399_rudnick float (a399_rudnick i) ;;
  r401 <- collect_a401_rudnick float (a401_rudnick i) ;;
  rbr <- collect_bridge_rudnick float (bridge_rudnick i) ;;
  u1 <- variant_block c399 ;; u2 <- variant_block c401 ;; u3 <- variant_block cbr ;;
  v1 <- variant_block r399 ;; v2 <- variant_block r401 ;; v3 <- variant_block rbr ;;
  t1 <- total_block r399 c399 ;; t2 <- total_block r401 c401 ;;
  t3 <- total_block rbr cbr ;;
  Ok {| UV_Subtract := (u1, u2, u3); Rudnick := (v1, v2, v3); Total := (t1, t2, t3) |}.

End MonteCarlo.

(** ** Concrete inputs used to exercise the definitions *)

Module Examples.

Import Py Subtract.
Local Open Scope string_scope.

(** a shell in which every command exits with status zero *)
Definition sh_ok (_ : string) : bool := true.

Definition two_sets : list string := ["a.ms"; "b.ms"].

(** [SubtractDP3(['a.ms', 'b.ms']).predict('sky.db', True, 'sol.h5')] *)
Definition after_predict : SubtractDP3 :=
  predict (Some "sky.db") true (Some "sol.h5") (init two_sets).

Definition table (pols : list string) : soltab :=
  {| AXES := "time,freq,ant,pol"; pol := Some pols |}.

Definition fulljones_file : h5file :=
  {| sol000 := [("amplitude000", table ["XX"; "XY"; "YX"; "YY"]);
                ("phase000", table ["XX"; "XY"; "YX"; "YY"])] |}.

Definition diagonal_file : h5file :=
  {| sol000 := [("amplitude000", table ["XX"; "YY"]);
                ("phase000", table ["XX"; "YY"])] |}.

Definition open_example (path : string) : result h5file :=
  if String.eqb path "fulljones.h5" then Ok fulljones_file
  else if String.eqb path "diagonal.h5" then Ok diagonal_file
  else Raise IOError.

End Examples.

Module MCExamples.

Import MonteCarlo.
Local Open Scope R_scope.

(** a result file in the layout the collector expects, as [readlines]
    returns it: every line ends with its newline character *)
Definition result_lines : list string :=
  map (fun l => (l ++ Py.nl)%string)
    ["# point-to-point analysis"; "cellsize 27"; "cells 118";
     "Linear regression slope is 1.05 +- 0.02";
     "Pearson R (x vs y):"; "(0.91, 1e-05)"; "+- 0.01";
     "(0.88, 1e-04)"; "+- 0.03"]%string.

(** the lists collected from two files of the first variant *)
Definition rudnick_columns : columns R :=
  {| results := [1; 2]; results_err := [1; 1];
     pearson := [0.2; 0.4]; pearson_err := [0.1; 0.1];
     spearman := [0.2; 0.4]; spearman_err := [0.1; 0.1] |}.

(** the lists collected from two files of the second variant *)
Definition cb_columns : columns R :=
  {| results := [1; 2]; results_err := [1; 1];
     pearson := [0.2; 0.8]; pearson_err := [0.1; 0.2];
     spearman := [0.2; 0.8]; spearman_err := [0.1; 0.2] |}.

End MCExamples.

(** ** Reading the claims: the notions the statements below use *)

Module Spec.

Import Py.
Local Open Scope string_scope.

(** the [msin=] tokens among the lines of a command file *)
Definition msin_tokens (content : string) : list string :=
  filter (String.prefix "msin=") (split_on (ascii_of_nat 10) content).

(** the name of the [n]-th apply step of the branch that is not fulljones *)
Definition ac_name (n : nat) : string := "ac" ++ str_of_nat n.

(** the three tokens of that step, for the solution table [corr] *)
Definition ac_tokens (h5 : string) (item : nat * string) : list string :=
  let ac := ac_name (fst item) in
  [ac ++ ".type=applycal"; ac ++ ".parmdb=" ++ h5; ac ++ ".correction=" ++ snd item].

(** the number a string of decimal digits denotes *)
Definition decimal_value (s : string) : Z :=
  fold_left (fun acc c => (10 * acc + digit_val c)%Z) (list_ascii_of_string s) 0%Z.

(** whether the last character of a string is a letter *)
Definition ends_in_letter (s : string) : bool :=
  match last_char s with
  | Ok c => is_alpha c
  | Raise _ => false
  end.

Local Open Scope R_scope.

(** [Sum f l] is the sum of [f x] over the elements [x] of [l] *)
Fixpoint Sum {A : Type} (f : A -> R) (l : list A) : R :=
  match l with
  | [] => 0
  | x :: l' => f x + Sum f l'
  end.

(** the inverse-variance weighted mean of values paired with their errors *)
Definition inverse_variance_mean (l : list (R * R)) : R :=
  Sum (fun p => fst p / snd p ^ 2) l / Sum (fun p => 1 / snd p ^ 2) l.

(** the uncertainty [sqrt(1 / Sum(1/e^2))] *)
Definition combined_uncertainty (errs : list R) : R :=
  sqrt (1 / Sum (fun e => 1 / e ^ 2) errs).

(** the plain mean *)
Definition mean (l : list R) : R := Sum (fun x => x) l / INR (List.length l).

(** the standard error of the mean: the sample standard deviation (with
    [n - 1] in the denominator) over the square root of [n] *)
Definition standard_error (l : list R) : R :=
  sqrt (Sum (fun x => (x - mean l) ^ 2) l / (INR (List.length l) - 1))
  / sqrt (INR (List.length l)).

(** the six lists of a loop have one entry per file read *)
Definition aligned {A : Type} (c : MonteCarlo.columns A) : Prop :=
  let n := List.length (MonteCarlo.results c) in
  List.length (MonteCarlo.results_err c) = n /\
  List.length (MonteCarlo.pearson c) = n /\
  List.length (MonteCarlo.pearson_err c) = n /\
  List.length (MonteCarlo.spearman c) = n /\
  List.length (MonteCarlo.spearman_err c) = n.

End Spec.

(** ** Properties of [get_largest_divider] *)

(** ** The history lookup of subtract/subtract_with_dp3.py *)

Module History.

Import Py.
Local Open Scope string_scope.

(** Exceptions of this part that the commands of the builder never raise. *)
Inductive raised : Type :=
| Raised (e : exn)
| AttributeError
| OverflowError.

Inductive outcome (A : Type) : Type :=
| Returns (a : A)
| Throws (e : raised).

Arguments Returns {A} a.
Arguments Throws {A} e.

(** the double-quote character *)
Definition dquote : string := String (ascii_of_nat 34) EmptyString.

(** [re.findall(r'\d+', s)]: the maximal runs of digits, from the left *)
Fixpoint digit_runs_from (cur : string) (s : string) : list string :=
  match s with
  | EmptyString =>
      match cur with EmptyString => [] | _ => [cur] end
  | String c s' =>
      if is_digit c then digit_runs_from (cur ++ String c EmptyString) s'
      else
        match cur with
        | EmptyString => digit_runs_from EmptyString s'
        | _ => cur :: digit_runs_from EmptyString s'
        end
  end.

Definition digit_runs (s : string) : list string := digit_runs_from EmptyString s.

(** The integer a binary64 float holds after [float] has read the
    non-negative integer [n]: [n] itself below [2^53], else [n] rounded to
    53 significant bits, ties to even. *)
Definition round_binary64 (n : Z) : Z :=
  if (n <? 2 ^ 53)%Z then n
  else
    let k := (Z.log2 n - 52)%Z in
    let q := Z.shiftr n k in
    let r := (n mod 2 ^ k)%Z in
    let half := (2 ^ (k - 1))%Z in
    let q := if (half <? r)%Z || ((r =? half)%Z && Z.odd q) then (q + 1)%Z else q in
    (q * 2 ^ k)%Z.

(** [int(float(s))] for a string of decimal digits: beyond the largest
    finite float, [float] returns infinity and [int] raises. *)
Definition int_float (s : string) : outcome Z :=
  let x := round_binary64 (Spec.decimal_value s) in
  if (2 ^ 1024 <=? x)%Z then Throws OverflowError else Returns x.

(** What [get_time_preavg_factor] returns: an integer, the float that
    [float] reads from a string, or [None]. *)
Inductive factor : Type :=
| IntFactor (z : Z)
| FloatFactor (text : string)
| NoFactor.

Section Lookup.

(** [os.popen(command).read()]: what the shell command prints *)
Variable popen : string -> string.

(** whether [float] accepts a string; [isfloat] is this test *)
Variable float_accepts : string -> bool.

Definition isfloat (num : string) : bool := float_accepts num.

Definition history_command (ms hist_item : string) : string :=
  "taql " ++ dquote ++ "SELECT * FROM " ++ ms ++ "::HISTORY" ++ dquote
  ++ " | grep " ++ hist_item.

(** [for item in hist: if hist_item in item and len(hist_item)<=len(item)] *)
Fixpoint first_item (hist_item : string) (hist : list string) : option string :=
  match hist with
  | [] => None
  | item :: hist' =>
      if contains hist_item item
         && (String.length hist_item <=? String.length item)%nat
      then Some item
      else first_item hist_item hist'
  end.

Definition parse_history (ms hist_item : string) : option string :=
  let hist := split_on " " (popen (history_command ms hist_item)) in
  first_item hist_item hist.

Definition parse_str : string := "demixer.timestep=".

Definition get_time_preavg_factor (ms : string) : outcome factor :=
  match parse_history ms parse_str with
  | None => Throws AttributeError
  | Some parsed_history =>
      match index (digit_runs (replace parse_str EmptyString parsed_history)) 0 with
      | Raise e => Throws (Raised e)
      | Ok avg_num =>
          if isdigit avg_num then
            match int_float avg_num with
            | Returns z => Returns (IntFactor z)
            | Throws e => Throws e
            end
          else if isfloat avg_num then Returns (FloatFactor avg_num)
          else Returns NoFactor
      end
  end.

End Lookup.

End History.

(** ** Further notions used in the statements *)

Module Notions.

Import Py Subtract.
Local Open Scope string_scope.

(** [s] without the occurrences of the character [c] *)
Fixpoint remove_char (c : ascii) (s : string) : string :=
  match s with
  | EmptyString => EmptyString
  | String x s' =>
      if Ascii.eqb x c then remove_char c s' else String x (remove_char c s')
  end.

(** whether the character [c] is absent from [s] *)
Definition no_char (c : ascii) (s : string) : bool :=
  all_chars (fun x => negb (Ascii.eqb x c)) s.

(** a step name with neither a space nor a single quote in it *)
Definition plain_name (s : string) : bool := no_char " " s && no_char "'" s.

(** a phase-centre coordinate without its square brackets *)
Definition strip_brackets (s : string) : string :=
  remove_char "]" (remove_char "[" s).

(** the tokens of the command [run] issues for the measurement set of
    index [n]: the tokens [run] found, then the pairs of the sets [0..n] *)
Definition command_tokens (self : SubtractDP3) (n : nat) : list string :=
  (cmd self ++ flat_map io_tokens (firstn (S n) (mslist self)))%list.

(** how the tokens that [moreDP3] appends begin *)
Definition moreDP3_prefixes : list string :=
  ["msin.datacolumn="; "ps."; "beam."; "ac"; "avg."; "steps="; "msin=";
   "msout="].

Definition moreDP3_token (t : string) : bool :=
  existsb (fun p => String.prefix p t) moreDP3_prefixes.

(** [s'] is [s] with tokens and step names appended, the tokens satisfying
    [P] and the names [Q] *)
Definition appends (P Q : string -> Prop) (s s' : SubtractDP3) : Prop :=
  mslist s' = mslist s /\
  exists toks names,
    cmd s' = (cmd s ++ toks)%list /\
    steps s' = (steps s ++ names)%list /\
    Forall P toks /\ Forall Q names.

(** the lists of [c1] followed by those of [c2] *)
Definition append_columns {A : Type} (c1 c2 : MonteCarlo.columns A)
    : MonteCarlo.columns A :=
  {| MonteCarlo.results := MonteCarlo.results c1 ++ MonteCarlo.results c2;
     MonteCarlo.results_err := MonteCarlo.results_err c1 ++ MonteCarlo.results_err c2;
     MonteCarlo.pearson := MonteCarlo.pearson c1 ++ MonteCarlo.pearson c2;
     MonteCarlo.pearson_err := MonteCarlo.pearson_err c1 ++ MonteCarlo.pearson_err c2;
     MonteCarlo.spearman := MonteCarlo.spearman c1 ++ MonteCarlo.spearman c2;
     MonteCarlo.spearman_err := MonteCarlo.spearman_err c1 ++ MonteCarlo.spearman_err c2 |}%list.

End Notions.

Import Py Subtract Spec.

Section LargestDivider.

Local Open Scope Z_scope.

Lemma range_succ (n : nat) :
  range (Z.of_nat (S n)) = (range (Z.of_nat n) ++ [Z.of_nat n])%list.
Proof.
  unfold range. rewrite !Nat2Z.id, seq_S, map_app. reflexivity.
Qed.

Lemma rev_range_succ (n : nat) :
  rev (range (Z.of_nat (S n))) = Z.of_nat n :: rev (range (Z.of_nat n)).
Proof.
  rewrite range_succ, rev_app_distr. reflexivity.
Qed.

(** Going down from [n >= 1] the loop stops at the largest divisor of [inp]
    that is at most [n]; it never gets as far as [0]. *)
Lemma first_divider_down (inp : Z) (n : nat) :
  exists r,
    first_divider inp (rev (range (Z.of_nat (S (S n))))) = Ok r /\
    1 <= r <= Z.of_nat (S n) /\
    inp mod r = 0 /\
    forall d, r < d <= Z.of_nat (S n) -> inp mod d <> 0.
Proof.
  induction n as [|n IH].
  - exists 1. repeat split; try lia.
    + rewrite !rev_range_succ. cbn [first_divider Z.of_nat Z.eqb Pos.of_succ_nat].
      rewrite Z.mod_1_r. reflexivity.
    + apply Z.mod_1_r.
  - rewrite rev_range_succ. cbn [first_divider].
    destruct (Z.of_nat (S (S n)) =? 0) eqn:E0; [apply Z.eqb_eq in E0; lia|].
    destruct (inp mod Z.of_nat (S (S n)) =? 0) eqn:Ed.
    + exists (Z.of_nat (S (S n))). apply Z.eqb_eq in Ed.
      repeat split; try lia.
    + destruct IH as (r & Hr & Hb & Hm & Hmax).
      exists r. repeat split; try lia; try assumption.
      intros d Hd. apply Z.eqb_neq in Ed.
      destruct (Z.eq_dec d (Z.of_nat (S (S n)))) as [->|Hne]; [assumption|].
      apply Hmax. lia.
Qed.

(** What the function returns for [max >= 2]: the largest divisor of [inp]
    strictly below [max]. *)
Lemma get_largest_divider_below (inp max : Z) :
  2 <= max ->
  exists r,
    get_largest_divider inp max = Ok r /\
    1 <= r <= max - 1 /\
    inp mod r = 0 /\
    forall d, r < d <= max - 1 -> inp mod d <> 0.
Proof.
  intros Hmax. unfold get_largest_divider.
  destruct (first_divider_down inp (Z.to_nat max - 2)) as (r & Hr & Hb & Hm & Hd).
  replace (S (S (Z.to_nat max - 2))) with (Z.to_nat max) in * by lia.
  rewrite Z2Nat.id in Hr by lia.
  replace (Z.of_nat (S (Z.to_nat max - 2))) with (max - 1) in * by lia.
  exists r. repeat split; try assumption; try lia.
Qed.

End LargestDivider.

(** C10: for [inp >= 1] and [max >= 2], [get_largest_divider(inp, max)]
    returns some [r] with [1 <= r <= max - 1] dividing [inp], so neither the
    [sys.exit] after the loop nor the modulo by [r = 0] is reached; with
    [max = 1] the loop does reach [inp % 0]. *)
Theorem get_largest_divider_safe (inp max : Z) :
  (1 <= inp)%Z -> (2 <= max)%Z ->
  (exists r, get_largest_divider inp max = Ok r /\
             (1 <= r <= max - 1)%Z /\ (r | inp)%Z) /\
  get_largest_divider inp 1 = Raise ZeroDivisionError.
Proof.
  intros _ Hmax. split.
  - destruct (get_largest_divider_below inp Hmax) as (r & Hr & Hb & Hm & _).
    exists r. repeat split; try assumption; try lia.
    apply Z.mod_divide; [lia | assumption].
  - reflexivity.
Qed.

Lemma get_largest_divider_safe_witness :
  (exists r, get_largest_divider 64 10 = Ok r /\
             (1 <= r <= 10 - 1)%Z /\ (r | 64)%Z) /\
  get_largest_divider 64 1 = Raise ZeroDivisionError.
Proof.
  apply (@get_largest_divider_safe 64 10); lia.
Defined.

(** C3: the averaging factor of the wide-field branch for 64 channels and a
    requested factor of 10 is 8; for a requested factor of 8, which divides
    64, it is 4 and not 8: the search starts below the requested value. *)
Theorem widefield_freqavg_excludes_requested :
  widefield_freqavg 64 10 = Ok 8%Z /\
  widefield_freqavg 64 8 = Ok 4%Z /\
  (8 | 64)%Z /\ (8 <= 8)%Z.
Proof.
  split; [reflexivity|]. split; [reflexivity|].
  split; [exists 8%Z; reflexivity | lia].
Qed.

(** ** Properties of the command builder *)

Section BuilderFacts.

Local Open Scope string_scope.

Lemma add_cmd_nil (self : SubtractDP3) : add_cmd [] self = self.
Proof. destruct self; unfold add_cmd; cbn. rewrite app_nil_r. reflexivity. Qed.

Lemma add_cmd_add_cmd (a b : list string) (self : SubtractDP3) :
  add_cmd b (add_cmd a self) = add_cmd (a ++ b) self.
Proof. unfold add_cmd; cbn. rewrite app_assoc. reflexivity. Qed.

Lemma eqb_append_prefix (a b c : string) :
  String.eqb (a ++ b) (a ++ c) = String.eqb b c.
Proof.
  induction a as [|x a IH]; cbn; [reflexivity|].
  rewrite Ascii.eqb_refl. exact IH.
Qed.

(** the command files of different turns have different names *)
Lemma cmd_file_0_1 (type : string) :
  String.eqb (cmd_file type 0) (cmd_file type 1) = false.
Proof.
  unfold cmd_file. rewrite !eqb_append_prefix. reflexivity.
Qed.

(** With a shell that never fails the loop of [run] goes through all
    measurement sets, and every pair it appends stays in the token list. *)
Lemma run_loop_ok (sh : string -> bool) (type : string) :
  (forall l, sh l = true) ->
  forall items w self,
  exists w',
    run_loop sh type items w self =
    (w', Ok (add_cmd (flat_map (fun it => io_tokens (snd it)) items) self)).
Proof.
  intros Hsh items. induction items as [|[n ms] rest IH]; intros w self.
  - exists w. cbn. rewrite add_cmd_nil. reflexivity.
  - cbn [run_loop]. unfold run_body. rewrite Hsh.
    destruct (IH (record_call (join " " (cmd (add_cmd (io_tokens ms) self)))
                    (write_file (cmd_file type n)
                       (join nl (cmd (add_cmd (io_tokens ms) self))) w))
                 (add_cmd (io_tokens ms) self)) as (w' & Hw').
    exists w'. rewrite Hw'. rewrite add_cmd_add_cmd. reflexivity.
Qed.

Lemma index_0_cons (A : Type) (a : A) (l : list A) : index (a :: l) 0 = Ok a.
Proof.
  unfold index. cbn [List.length Z.ltb Z.compare].
  destruct (Z.ltb_spec 0 (Z.of_nat (S (List.length l)))); [reflexivity | lia].
Qed.

Lemma applycal_loop_spec (h5 : string) (keys : list string) :
  forall n self,
    applycal_loop h5 n keys self =
    {| mslist := mslist self;
       cmd := cmd self ++ flat_map (ac_tokens h5) (enumerate_from n keys);
       steps := steps self ++ map ac_name (seq n (List.length keys)) |}.
Proof.
  induction keys as [|corr keys IH]; intros n self.
  - cbn. rewrite !app_nil_r. destruct self; reflexivity.
  - cbn [applycal_loop]. rewrite IH. cbn.
    rewrite <- !app_assoc. reflexivity.
Qed.

Lemma digit_not_space (c : ascii) : is_digit c = true -> is_space c = false.
Proof.
  unfold is_digit, is_space. intros H.
  apply andb_true_iff in H as [H1 H2].
  apply Nat.leb_le in H1. apply Nat.leb_le in H2.
  apply orb_false_iff. split; apply andb_false_iff.
  - right. apply Nat.leb_gt. lia.
  - right. apply Nat.leb_gt. lia.
Qed.

Lemma digit_not_alpha (c : ascii) : is_digit c = true -> is_alpha c = false.
Proof.
  unfold is_digit, is_alpha. intros H.
  apply andb_true_iff in H as [H1 H2].
  apply Nat.leb_le in H1. apply Nat.leb_le in H2.
  apply orb_false_iff. split; apply andb_false_iff.
  - left. apply Nat.leb_gt. lia.
  - left. apply Nat.leb_gt. lia.
Qed.

Lemma rstrip_no_space (s : string) :
  all_chars (fun c => negb (is_space c)) s = true -> rstrip s = s.
Proof.
  induction s as [|c s IH]; cbn; [reflexivity|].
  intros H. apply andb_true_iff in H as [Hc Hs].
  rewrite (IH Hs). destruct s; [|reflexivity].
  apply negb_true_iff in Hc. rewrite Hc. reflexivity.
Qed.

Lemma all_chars_impl (p q : ascii -> bool) (s : string) :
  (forall c, p c = true -> q c = true) ->
  all_chars p s = true -> all_chars q s = true.
Proof.
  intros Hpq. induction s as [|c s IH]; cbn; [reflexivity|].
  intros H. apply andb_true_iff in H as [Hc Hs].
  rewrite (Hpq c Hc), (IH Hs). reflexivity.
Qed.

Lemma strip_digits (s : string) : all_chars is_digit s = true -> strip s = s.
Proof.
  intros H. unfold strip.
  assert (Hl : lstrip s = s).
  { destruct s as [|c s]; [reflexivity|]. cbn in *.
    apply andb_true_iff in H as [Hc _].
    rewrite (digit_not_space c Hc). reflexivity. }
  rewrite Hl. apply rstrip_no_space.
  apply all_chars_impl with (p := is_digit); [|assumption].
  intros c Hc. rewrite (digit_not_space c Hc). reflexivity.
Qed.

Lemma int_digits_all_digits (s : string) :
  all_chars is_digit s = true ->
  forall acc prev,
    (s = EmptyString -> prev = true) ->
    int_digits acc prev s =
    Ok (fold_left (fun a c => (10 * a + digit_val c)%Z) (list_ascii_of_string s) acc).
Proof.
  induction s as [|c s IH]; intros H acc prev Hne.
  - cbn. rewrite Hne; reflexivity.
  - cbn in H. apply andb_true_iff in H as [Hc Hs].
    cbn [int_digits list_ascii_of_string fold_left]. rewrite Hc.
    apply IH; [assumption | reflexivity].
Qed.

(** [int] of a string of decimal digits is the number the digits denote *)
Lemma int_of_string_digits (s : string) :
  isdigit s = true -> int_of_string s = Ok (decimal_value s).
Proof.
  destruct s as [|c s]; [discriminate|].
  unfold isdigit. intros H. unfold int_of_string, decimal_value.
  rewrite (strip_digits _ H).
  assert (Hd : int_digits 0 false (String c s) =
               Ok (fold_left (fun a c => (10 * a + digit_val c)%Z)
                     (list_ascii_of_string (String c s)) 0%Z)).
  { apply int_digits_all_digits; [assumption | discriminate]. }
  cbn in H. apply andb_true_iff in H as [Hc _].
  destruct c as [[] [] [] [] [] [] [] []]; try discriminate Hc; exact Hd.
Qed.

Lemma isdigit_last_char (s : string) (c : ascii) :
  isdigit s = true -> last_char s = Ok c -> is_digit c = true.
Proof.
  destruct s as [|x s]; [discriminate|]. unfold isdigit.
  revert x. induction s as [|y s IH]; intros x H Hl.
  - cbn in *. injection Hl as <-. apply andb_true_iff in H as [H _]. exact H.
  - cbn [all_chars] in H. apply andb_true_iff in H as [_ H].
    apply (IH y); [exact H | exact Hl].
Qed.

End BuilderFacts.

(** C1, as stated, fails on the second command file: run for
    [['a.ms', 'b.ms']] after [predict], it writes two files, and the second
    holds the [msin=] token of the first measurement set as well as its own. *)
Lemma run_second_file_has_two_pairs :
  let w := fst (run Examples.sh_ok "predict" empty_world Examples.after_predict) in
  map fst (files w) = ["dp3predict_0.cmd"; "dp3predict_1.cmd"]%string /\
  map (fun f => msin_tokens (snd f)) (files w) =
    [["msin=a.ms"]; ["msin=a.ms"; "msin=b.ms"]]%string /\
  ~ Forall (fun f => List.length (msin_tokens (snd f)) = 1%nat) (files w).
Proof.
  cbv zeta. split; [reflexivity|]. split; [reflexivity|].
  intros H. apply Forall_forall with (x := nth 1 (files (fst (run Examples.sh_ok "predict" empty_world Examples.after_predict))) (EmptyString, EmptyString)) in H.
  - vm_compute in H. discriminate H.
  - vm_compute. right. left. reflexivity.
Qed.

(** C1, amended: for two measurement sets, [predict] followed by [run] (the
    tool exiting with status zero) writes exactly two command files; each
    holds the base template and the predict tokens, followed by the
    [msin=]/[msout=] pairs of the measurement sets handled so far, so that it
    ends with the pair naming its own measurement set. *)
Theorem predict_run_command_files (ms0 ms1 : string)
    (sourcedb : option string) (subtract : bool) (h5parm : option string)
    (type : string) (sh : string -> bool) :
  (forall l, sh l = true) ->
  let self := predict sourcedb subtract h5parm (init [ms0; ms1]) in
  cmd self = (base_cmd ++ predict_tokens sourcedb h5parm
              ++ (if subtract then subtract_tokens else []))%list /\
  files (fst (run sh type empty_world self)) =
    [(cmd_file type 0, join nl (cmd self ++ io_tokens ms0));
     (cmd_file type 1, join nl (cmd self ++ io_tokens ms0 ++ io_tokens ms1))].
Proof.
  intros Hsh self. split.
  - unfold self, predict, init, add_cmd, add_step. destruct subtract; cbn.
    + reflexivity.
    + reflexivity.
  - assert (Hms : mslist self = [ms0; ms1]).
    { unfold self, predict. destruct subtract; reflexivity. }
    unfold run. rewrite Hms.
    cbn [enumerate enumerate_from run_loop]. unfold run_body.
    rewrite !Hsh. cbn [fst files write_file record_call empty_world filter app].
    cbn [fst negb]. rewrite cmd_file_0_1. cbn [negb filter app].
    unfold add_cmd. cbn [cmd]. rewrite <- app_assoc. reflexivity.
Qed.

Lemma predict_run_command_files_witness :
  let self := predict (Some "sky.db"%string) true (Some "sol.h5"%string)
                (init ["a.ms"; "b.ms"]%string) in
  cmd self = (base_cmd ++ predict_tokens (Some "sky.db"%string) (Some "sol.h5"%string)
              ++ subtract_tokens)%list /\
  files (fst (run Examples.sh_ok "predict" empty_world self)) =
    [(cmd_file "predict" 0, join nl (cmd self ++ io_tokens "a.ms"));
     (cmd_file "predict" 1,
      join nl (cmd self ++ io_tokens "a.ms" ++ io_tokens "b.ms"))].
Proof.
  apply (@predict_run_command_files "a.ms" "b.ms" (Some "sky.db"%string) true
           (Some "sol.h5"%string) "predict" Examples.sh_ok).
  intros l. reflexivity.
Defined.

(** C2, as stated, fails: started from the base template itself, the first
    turn of the loop of [run] leaves the pair of the first measurement set in
    the token list, and the second turn starts from that list. *)
Lemma run_body_keeps_tokens :
  let self := init Examples.two_sets in
  exists w s,
    run_body Examples.sh_ok "predict" 0 "a.ms" empty_world self = (w, Ok s) /\
    cmd self = base_cmd /\
    cmd s = (base_cmd ++ ["msin=a.ms"; "msout=sub_a.ms"]%string)%list /\
    cmd s <> base_cmd /\
    run_loop Examples.sh_ok "predict" (enumerate (mslist self)) empty_world self =
      run_loop Examples.sh_ok "predict" [(1%nat, "b.ms"%string)] w s.
Proof.
  cbv zeta. eexists. eexists.
  split; [reflexivity|]. split; [reflexivity|]. split; [reflexivity|].
  split; [discriminate | reflexivity].
Qed.

(** C2, amended: when every invocation of the tool exits with status zero,
    [run] returns, and once its loop over the measurement sets is over the
    token list is the base template again. *)
Theorem run_resets_tokens_at_end (sh : string -> bool) (type : string)
    (w : world) (self : SubtractDP3) :
  (forall l, sh l = true) ->
  exists w' self',
    run sh type w self = (w', Ok self') /\ cmd self' = base_cmd.
Proof.
  intros Hsh. unfold run.
  destruct (run_loop_ok sh type Hsh (enumerate (mslist self)) w self) as (w' & Hw').
  rewrite Hw'. eexists. eexists. split; reflexivity.
Qed.

Lemma run_resets_tokens_at_end_witness :
  exists w' self',
    run Examples.sh_ok "predict" empty_world Examples.after_predict = (w', Ok self') /\
    cmd self' = base_cmd.
Proof.
  apply (@run_resets_tokens_at_end Examples.sh_ok "predict"%string empty_world
           Examples.after_predict).
  intros l. reflexivity.
Defined.

(** C6: for a solution file whose first table has a polarisation axis, the
    applycal block of [moreDP3] appends the one step [ac], with
    [ac.correction=fulljones], when that axis has 4 entries; otherwise it
    appends one step per solution table of the file, [ac0], [ac1], ... in the
    order of the tables, each with [correction] set to the table's key.  With
    the phase shift and the averaging left out, these are the steps [moreDP3]
    adds after the optional [beam] step. *)
Theorem applycal_branch (open_file : string -> result h5file) (h5 : string)
    (T : h5file) (name : string) (st : soltab) (rest : list (string * soltab))
    (p : list string) (concat applybeam : bool) (self : SubtractDP3) :
  open_file h5 = Ok T ->
  sol000 T = (name, st) :: rest ->
  contains "pol" (AXES st) = true ->
  pol st = Some p ->
  let keys := name :: map fst rest in
  let ac_steps :=
    if Nat.eqb (List.length p) 4 then ["ac"%string]
    else map ac_name (seq 0 (List.length keys)) in
  let ac_cmd :=
    if Nat.eqb (List.length p) 4 then
      ["ac.type=applycal"; ("ac.parmdb=" ++ h5); "ac.correction=fulljones";
       "ac.soltab=[amplitude000,phase000]"]%string
    else flat_map (ac_tokens h5) (enumerate keys) in
  stage_applycal open_file (Some h5) self =
    Ok {| mslist := mslist self;
          cmd := cmd self ++ ac_cmd;
          steps := steps self ++ ac_steps |} /\
  exists self',
    moreDP3 open_file None None None concat applybeam (Some h5) self = Ok self' /\
    steps self' = (steps self ++ (if applybeam then ["beam"%string] else [])
                   ++ ac_steps)%list.
Proof.
  intros Hopen Hsol Hax Hpol keys ac_steps ac_cmd.
  assert (Hfj : isfulljones open_file h5 = Ok (Nat.eqb (List.length p) 4)).
  { unfold isfulljones. rewrite Hopen. cbn [bind]. rewrite Hsol, index_0_cons.
    cbn [bind snd]. rewrite Hax, Hpol. reflexivity. }
  assert (Hstage : forall s,
    stage_applycal open_file (Some h5) s =
    Ok {| mslist := mslist s; cmd := cmd s ++ ac_cmd; steps := steps s ++ ac_steps |}).
  { intros s. unfold stage_applycal. rewrite Hfj. cbn [bind].
    unfold ac_steps, ac_cmd. destruct (Nat.eqb (List.length p) 4).
    - reflexivity.
    - rewrite Hopen. cbn [bind]. rewrite applycal_loop_spec, Hsol.
      cbn [map fst]. fold keys. unfold enumerate.
      reflexivity. }
  split; [apply Hstage|].
  unfold moreDP3. cbn [stage_phaseshift bind]. rewrite Hstage. cbn [bind].
  cbn [stage_averaging bind]. eexists. split; [reflexivity|].
  assert (Hio : forall c s, steps (stage_io c s) = steps s).
  { intros c s. unfold stage_io. destruct c; [reflexivity|].
    generalize (mslist s) as l. revert s.
    intros s l. revert s. induction l as [|m l IH]; intros s; [reflexivity|].
    cbn [fold_left]. rewrite IH. reflexivity. }
  rewrite Hio. cbn [steps add_cmd].
  destruct applybeam; cbn; rewrite <- ?app_assoc; reflexivity.
Qed.

Lemma applycal_branch_witness :
  (stage_applycal Examples.open_example (Some "fulljones.h5"%string)
     (init Examples.two_sets) =
   Ok {| mslist := Examples.two_sets;
         cmd := base_cmd ++
                ["ac.type=applycal"; "ac.parmdb=fulljones.h5";
                 "ac.correction=fulljones";
                 "ac.soltab=[amplitude000,phase000]"]%string;
         steps := ["ac"%string] |}) /\
  (stage_applycal Examples.open_example (Some "diagonal.h5"%string)
     (init Examples.two_sets) =
   Ok {| mslist := Examples.two_sets;
         cmd := base_cmd ++
                ["ac0.type=applycal"; "ac0.parmdb=diagonal.h5";
                 "ac0.correction=amplitude000";
                 "ac1.type=applycal"; "ac1.parmdb=diagonal.h5";
                 "ac1.correction=phase000"]%string;
         steps := ["ac0"; "ac1"]%string |}).
Proof.
  split.
  - apply (proj1 (@applycal_branch Examples.open_example "fulljones.h5"%string
             Examples.fulljones_file "amplitude000"%string
             (Examples.table ["XX"; "XY"; "YX"; "YY"]%string)
             [("phase000"%string, Examples.table ["XX"; "XY"; "YX"; "YY"]%string)]
             ["XX"; "XY"; "YX"; "YY"]%string false false (init Examples.two_sets)
             eq_refl eq_refl eq_refl eq_refl)).
  - apply (proj1 (@applycal_branch Examples.open_example "diagonal.h5"%string
             Examples.diagonal_file "amplitude000"%string
             (Examples.table ["XX"; "YY"]%string)
             [("phase000"%string, Examples.table ["XX"; "YY"]%string)]
             ["XX"; "YY"]%string false false (init Examples.two_sets)
             eq_refl eq_refl eq_refl eq_refl)).
Defined.

(** C7, as stated, fails: the string [+4] is not purely numeric, yet the
    builder emits [avg.freqstep=4] for it and no [avg.freqresolution] token. *)
Lemma freqavg_signed_is_a_step :
  isdigit "+4" = false /\
  exists self',
    moreDP3 Examples.open_example None (Some (PyStr "+4")) None false false None
      (init ["a.ms"%string]) = Ok self' /\
    cmd self' =
      (base_cmd ++ ["msin.datacolumn=SUBTRACT_DATA"; "avg.type=averager";
                    "avg.freqstep=4"; "steps=[avg]";
                    "msin=a.ms"; "msout=sub_a.ms"]%string)%list /\
    ~ In "avg.freqresolution=+4"%string (cmd self').
Proof.
  split; [reflexivity|]. eexists. split; [reflexivity|].
  split; [reflexivity|]. cbn. intros H.
  repeat (destruct H as [H|H]; [discriminate H|]). exact H.
Qed.

(** C7, amended: a purely numeric string yields an [avg.freqstep] token with
    the integer it denotes; a string whose last character is a letter (such
    as [2MHz]) yields an [avg.freqresolution] token carrying the string;
    every other string is read with [int] as well, and yields an
    [avg.freqstep] token when [int] accepts it. *)
Theorem freqavg_token_selection (s : string) (self : SubtractDP3) :
  stage_averaging (Some (PyStr s)) None self =
    let self' := add_cmd ["avg.type=averager"%string] (add_step "avg" self) in
    if isdigit s then
      Ok (add_cmd [("avg.freqstep=" ++ str_of_Z (decimal_value s))%string] self')
    else if ends_in_letter s then
      Ok (add_cmd [("avg.freqresolution=" ++ s)%string] self')
    else
      (_ <- last_char s ;;
       n <- int_of_string s ;;
       Ok (add_cmd [("avg.freqstep=" ++ str_of_Z n)%string] self'))%py.
Proof.
  unfold stage_averaging, freq_token, ends_in_letter. cbn [str int].
  destruct (isdigit s) eqn:Hd.
  - rewrite (int_of_string_digits s Hd). reflexivity.
  - destruct (last_char s) as [c|e]; cbn [bind]; [|reflexivity].
    destruct (is_alpha c); cbn [negb bind]; [reflexivity|].
    destruct (int_of_string s); reflexivity.
Qed.

(** ** Properties of the collector and of the aggregator *)

Import MonteCarlo.

Section CollectorFacts.

Variable A : Type.
Variable float : string -> result A.

Lemma read_file_aligned (k : Z) (lines : list string) (c c' : columns A) :
  aligned c -> read_file float k lines c = Ok c' -> aligned c'.
Proof.
  unfold read_file, aligned. intros (H1 & H2 & H3 & H4 & H5) H.
  repeat match type of H with
         | bind ?r _ = Ok _ => destruct r; cbn [bind] in H; [|discriminate H]
         end.
  injection H as <-. cbn. rewrite !length_app, H1, H2, H3, H4, H5.
  repeat split; reflexivity.
Qed.

(** every loop appends one entry to each of its six lists per file *)
Lemma collect_aligned (k : Z) (files : list (list string)) (c : columns A) :
  collect float k files = Ok c -> aligned c.
Proof.
  unfold collect.
  assert (H0 : aligned (no_columns A)) by (repeat split; reflexivity).
  revert H0. generalize (no_columns A) as c0. revert c.
  induction files as [|lines files IH]; intros c c0 H0 H.
  - cbn in H. injection H as <-. exact H0.
  - cbn [collect_from] in H.
    destruct (read_file float k lines c0) as [c1|e] eqn:E; [|discriminate H].
    cbn [bind] in H. apply (IH c c1); [|exact H].
    apply (read_file_aligned k lines H0 E).
Qed.

Lemma read_file_last_line (lines : list string) (c c' : columns A) :
  pearson_err c = spearman_err c ->
  read_file float (-1) lines c = Ok c' -> pearson_err c' = spearman_err c'.
Proof.
  unfold read_file. intros H0 H.
  destruct (first_number lines (-4)) as [s1|]; cbn [bind] in H; [|discriminate H].
  destruct (float s1); cbn [bind] in H; [|discriminate H].
  destruct (last_token lines (-1)) as [s2|]; cbn [bind] in H; [|discriminate H].
  destruct (float s2); cbn [bind] in H; [|discriminate H].
  destruct (first_number lines (-2)) as [s3|]; cbn [bind] in H; [|discriminate H].
  destruct (float s3); cbn [bind] in H; [|discriminate H].
  repeat match type of H with
         | bind ?r _ = Ok _ => destruct r; cbn [bind] in H; [|discriminate H]
         end.
  injection H as <-. cbn. rewrite H0. reflexivity.
Qed.

(** In the loops for [a401_rudnick] and [bridge_rudnick] the list of
    Pearson errors is a copy of the list of Spearman errors. *)
Lemma collect_last_line (files : list (list string)) (c : columns A) :
  collect float (-1) files = Ok c -> pearson_err c = spearman_err c.
Proof.
  unfold collect.
  assert (H0 : pearson_err (no_columns A) = spearman_err (no_columns A))
    by reflexivity.
  revert H0. generalize (no_columns A) as c0. revert c.
  induction files as [|lines files IH]; intros c c0 H0 H.
  - cbn in H. injection H as <-. exact H0.
  - cbn [collect_from] in H.
    destruct (read_file float (-1) lines c0) as [c1|e] eqn:E; [|discriminate H].
    cbn [bind] in H. apply (IH c c1); [|exact H].
    apply (read_file_last_line lines c0 H0 E).
Qed.

End CollectorFacts.

(** C5: on a file whose third-from-last line ends in [0.01] and whose last
    line ends in [0.03], the loops for the [cb] variant and for
    [a399_rudnick] record [0.01] as the Pearson error, the loops for
    [a401_rudnick] and [bridge_rudnick] record [0.03], the Spearman error.
    The other five fields come from the same lines in all six loops. *)
Theorem rudnick_pearson_error_line :
  let pe (r : result (columns string)) := (c <- r ;; Ok (pearson_err c))%py in
  let others (r : result (columns string)) :=
    (c <- r ;;
     Ok (results c, results_err c, pearson c, spearman c, spearman_err c))%py in
  let files := [MCExamples.result_lines] in
  last_token MCExamples.result_lines (-3) = Ok "0.01"%string /\
  last_token MCExamples.result_lines (-1) = Ok "0.03"%string /\
  pe (collect_a399_cb (@Ok string) files) = Ok ["0.01"%string] /\
  pe (collect_a401_cb (@Ok string) files) = Ok ["0.01"%string] /\
  pe (collect_bridge_cb (@Ok string) files) = Ok ["0.01"%string] /\
  pe (collect_a399_rudnick (@Ok string) files) = Ok ["0.01"%string] /\
  pe (collect_a401_rudnick (@Ok string) files) = Ok ["0.03"%string] /\
  pe (collect_bridge_rudnick (@Ok string) files) = Ok ["0.03"%string] /\
  others (collect_a401_rudnick (@Ok string) files) =
    Ok (["1.05"], ["0.02"], ["0.91"], ["0.88"], ["0.03"])%string /\
  others (collect_a401_rudnick (@Ok string) files) =
    others (collect_a401_cb (@Ok string) files).
Proof.
  cbv zeta. repeat split; vm_compute; reflexivity.
Qed.

Section AggregatorFacts.

Local Open Scope R_scope.

Lemma fold_left_Rplus_Sum (l : list R) (a : R) :
  fold_left Rplus l a = a + Sum (fun x => x) l.
Proof.
  revert a. induction l as [|x l IH]; intros a; cbn.
  - ring.
  - rewrite IH. ring.
Qed.

Lemma np_sum_Sum (l : list R) : np_sum l = Sum (fun x => x) l.
Proof. unfold np_sum. rewrite fold_left_Rplus_Sum. ring. Qed.

Lemma Sum_map (A B : Type) (f : B -> R) (g : A -> B) (l : list A) :
  Sum f (map g l) = Sum (fun x => f (g x)) l.
Proof.
  induction l as [|x l IH]; cbn; [reflexivity|]. rewrite IH. reflexivity.
Qed.

Lemma np_sum_map (A : Type) (f : A -> R) (l : list A) :
  np_sum (map f l) = Sum f l.
Proof. rewrite np_sum_Sum, Sum_map. reflexivity. Qed.

Lemma Sum_ext (A : Type) (f g : A -> R) (l : list A) :
  (forall x, f x = g x) -> Sum f l = Sum g l.
Proof.
  intros H. induction l as [|x l IH]; cbn; [reflexivity|].
  rewrite H, IH. reflexivity.
Qed.

Lemma np_mean_mean (l : list R) : np_mean l = mean l.
Proof. unfold np_mean, mean. rewrite np_sum_Sum. reflexivity. Qed.

Lemma sem_standard_error (l : list R) : sem l = standard_error l.
Proof.
  unfold sem, np_std_ddof1, standard_error.
  rewrite np_sum_map.
  rewrite (Sum_ext (fun x => (x - np_mean l) ^ 2) (fun x => (x - mean l) ^ 2)).
  - reflexivity.
  - intros x. rewrite np_mean_mean. reflexivity.
Qed.

Lemma np_sum_recip_power2 (e : list R) :
  np_sum (np_recip (np_power2 e)) = Sum (fun x => 1 / x ^ 2) e.
Proof.
  unfold np_recip, np_power2. rewrite np_sum_map, Sum_map. reflexivity.
Qed.

Lemma uncertainty_combined (e : list R) : uncertainty e = combined_uncertainty e.
Proof.
  unfold uncertainty, combined_uncertainty. cbv zeta.
  rewrite np_sum_recip_power2. reflexivity.
Qed.

Lemma Sum_combine_snd (f : R -> R) (v e : list R) :
  List.length v = List.length e ->
  Sum (fun p => f (snd p)) (combine v e) = Sum f e.
Proof.
  revert e. induction v as [|x v IH]; intros [|y e] H; cbn in *;
    try discriminate; [reflexivity|].
  rewrite IH by (injection H as H; exact H). reflexivity.
Qed.

Lemma Sum_quotients (v e : list R) :
  np_sum (map (fun p => fst p / snd p) (combine v (np_power2 e))) =
  Sum (fun p => fst p / snd p ^ 2) (combine v e).
Proof.
  rewrite np_sum_map. revert e.
  induction v as [|x v IH]; intros [|y e]; cbn; try reflexivity.
  rewrite IH. reflexivity.
Qed.

(** On lists of the same length the first number of a [Slope] line is the
    inverse-variance weighted mean of the paired values and errors. *)
Lemma weighted_mean_aligned (v e : list R) :
  List.length v = List.length e ->
  weighted_mean v e = Ok (inverse_variance_mean (combine v e)).
Proof.
  intros H. unfold weighted_mean, np_divide, inverse_variance_mean.
  unfold np_power2 at 1. rewrite length_map, H, Nat.eqb_refl. cbn [bind].
  rewrite Sum_quotients, np_sum_recip_power2.
  rewrite (Sum_combine_snd (fun x => 1 / x ^ 2) v e H). reflexivity.
Qed.

Lemma Sum_pos (A : Type) (f : A -> R) (l : list A) :
  l <> [] -> Forall (fun x => 0 < f x) l -> 0 < Sum f l.
Proof.
  intros Hne H. induction H as [|x l Hx Hl IH]; [contradiction|].
  cbn. destruct l as [|y l].
  - cbn. lra.
  - assert (0 < Sum f (y :: l)) by (apply IH; discriminate). lra.
Qed.

Lemma inverse_square_pos (e : list R) :
  e <> [] -> Forall (fun x => 0 < x) e -> 0 < Sum (fun x => 1 / x ^ 2) e.
Proof.
  intros Hne H. apply Sum_pos; [exact Hne|].
  apply Forall_impl with (P := fun x => 0 < x); [|exact H].
  intros x Hx. apply Rdiv_lt_0_compat; [lra|]. apply pow_lt. exact Hx.
Qed.

Lemma variant_block_aligned (c : columns R) :
  aligned c ->
  variant_block c =
  Ok {| Slope := (inverse_variance_mean (combine (results c) (results_err c)),
                  variant_slope_error (results c) (results_err c));
        Pearson_R := (mean (pearson c), standard_error (pearson c));
        Spearman_R := (mean (spearman c), standard_error (spearman c)) |}.
Proof.
  intros (H1 & _). unfold variant_block.
  rewrite weighted_mean_aligned by (symmetry; exact H1). cbn [bind].
  rewrite !np_mean_mean, !sem_standard_error. reflexivity.
Qed.

Lemma total_block_aligned (rudnick cb : columns R) :
  aligned rudnick -> aligned cb ->
  total_block rudnick cb =
  Ok {| Slope :=
          (inverse_variance_mean
             (combine (results rudnick ++ results cb)
                      (results_err rudnick ++ results_err cb)),
           combined_uncertainty (results_err rudnick ++ results_err cb));
        Pearson_R :=
          (inverse_variance_mean
             (combine (pearson rudnick ++ pearson cb)
                      (pearson_err rudnick ++ pearson_err cb)),
           combined_uncertainty (pearson_err rudnick ++ pearson_err cb));
        Spearman_R :=
          (inverse_variance_mean
             (combine (spearman rudnick ++ spearman cb)
                      (spearman_err rudnick ++ spearman_err cb)),
           combined_uncertainty (spearman_err rudnick ++ spearman_err cb)) |}.
Proof.
  intros (H1 & H2 & H3 & H4 & H5) (K1 & K2 & K3 & K4 & K5).
  unfold total_block. cbv zeta.
  rewrite !weighted_mean_aligned by (rewrite !length_app; congruence).
  cbn [bind]. rewrite !uncertainty_combined. reflexivity.
Qed.

(** The aggregator raises nothing on what the collector hands over: when
    the six loops have read their files, every block is printed. *)
Lemma script_prints (float : string -> result R) (i : inputs)
    (c399 c401 cbr r399 r401 rbr : columns R) :
  collect_a399_cb float (a399_cb i) = Ok c399 ->
  collect_a401_cb float (a401_cb i) = Ok c401 ->
  collect_bridge_cb float (bridge_cb i) = Ok cbr ->
  collect_a399_rudnick float (a399_rudnick i) = Ok r399 ->
  collect_a401_rudnick float (a401_rudnick i) = Ok r401 ->
  collect_bridge_rudnick float (bridge_rudnick i) = Ok rbr ->
  exists u1 u2 u3 v1 v2 v3 t1 t2 t3,
    variant_block c399 = Ok u1 /\ variant_block c401 = Ok u2 /\
    variant_block cbr = Ok u3 /\
    variant_block r399 = Ok v1 /\ variant_block r401 = Ok v2 /\
    variant_block rbr = Ok v3 /\
    total_block r399 c399 = Ok t1 /\ total_block r401 c401 = Ok t2 /\
    total_block rbr cbr = Ok t3 /\
    script float i =
      Ok {| UV_Subtract := (u1, u2, u3); Rudnick := (v1, v2, v3);
            Total := (t1, t2, t3) |}.
Proof.
  intros H1 H2 H3 H4 H5 H6. unfold script.
  rewrite H1, H2, H3, H4, H5, H6. cbn [bind].
  apply collect_aligned in H1, H2, H3, H4, H5, H6.
  rewrite !variant_block_aligned, !total_block_aligned by assumption.
  cbn [bind]. do 9 eexists. repeat split; reflexivity.
Qed.

End AggregatorFacts.

Local Open Scope R_scope.

(** C8: for aligned lists of slopes and positive errors, the first number
    of a [Slope] line, per variant and under [Total:], is the
    inverse-variance weighted mean [Sum(v/e^2) / Sum(1/e^2)], whose
    denominator is positive; for the slopes [1.0, 2.0] with errors
    [1.0, 1.0] it is [1.5]. *)
Theorem slope_is_inverse_variance_mean (rudnick cb : columns R) :
  aligned rudnick -> aligned cb -> results cb <> [] ->
  Forall (fun e => 0 < e)%R (results_err rudnick) ->
  Forall (fun e => 0 < e)%R (results_err cb) ->
  let variant := combine (results cb) (results_err cb) in
  let total := combine (results rudnick ++ results cb)
                       (results_err rudnick ++ results_err cb) in
  (exists b, variant_block cb = Ok b /\
             fst (Slope b) = inverse_variance_mean variant) /\
  (exists t, total_block rudnick cb = Ok t /\
             fst (Slope t) = inverse_variance_mean total) /\
  (0 < Sum (fun p => 1 / snd p ^ 2) variant)%R /\
  (0 < Sum (fun p => 1 / snd p ^ 2) total)%R /\
  weighted_mean [1; 2]%R [1; 1]%R = Ok 1.5%R.
Proof.
  intros Hr Hc Hne Hpr Hpc variant total.
  assert (Hlc : List.length (results cb) = List.length (results_err cb))
    by (destruct Hc as (H & _); symmetry; exact H).
  assert (Hlr : List.length (results rudnick) = List.length (results_err rudnick))
    by (destruct Hr as (H & _); symmetry; exact H).
  assert (Hec : results_err cb <> []).
  { intros E. rewrite E in Hlc. destruct (results cb); [contradiction|discriminate]. }
  split; [|split; [|split; [|split]]].
  - rewrite (variant_block_aligned Hc). eexists. split; reflexivity.
  - rewrite (total_block_aligned Hr Hc). eexists. split; reflexivity.
  - unfold variant.
    rewrite (Sum_combine_snd (fun x => 1 / x ^ 2)%R _ _ Hlc).
    apply inverse_square_pos; assumption.
  - unfold total.
    rewrite (Sum_combine_snd (fun x => 1 / x ^ 2)%R)
      by (rewrite !length_app; congruence).
    apply inverse_square_pos.
    + intros E. apply app_eq_nil in E as [_ E]. contradiction.
    + apply Forall_app. split; assumption.
  - rewrite weighted_mean_aligned by reflexivity. f_equal.
    unfold inverse_variance_mean. cbn [combine Sum fst snd]. lra.
Qed.

Lemma slope_is_inverse_variance_mean_witness :
  let variant := combine (results MCExamples.cb_columns)
                         (results_err MCExamples.cb_columns) in
  let total := combine (results MCExamples.rudnick_columns ++
                        results MCExamples.cb_columns)
                       (results_err MCExamples.rudnick_columns ++
                        results_err MCExamples.cb_columns) in
  (exists b, variant_block MCExamples.cb_columns = Ok b /\
             fst (Slope b) = inverse_variance_mean variant) /\
  (exists t, total_block MCExamples.rudnick_columns MCExamples.cb_columns = Ok t /\
             fst (Slope t) = inverse_variance_mean total) /\
  (0 < Sum (fun p => 1 / snd p ^ 2) variant)%R /\
  (0 < Sum (fun p => 1 / snd p ^ 2) total)%R /\
  weighted_mean [1; 2]%R [1; 1]%R = Ok 1.5%R.
Proof.
  apply (@slope_is_inverse_variance_mean MCExamples.rudnick_columns
           MCExamples.cb_columns).
  - repeat split; reflexivity.
  - repeat split; reflexivity.
  - discriminate.
  - repeat constructor; lra.
  - repeat constructor; lra.
Defined.

(** C9: for a non-empty list of positive errors, [uncertainty] returns
    [sqrt(1 / Sum(1/e^2))], the sum being positive; for the errors
    [1.0, 1.0] this is [1/sqrt(2)]; and it is what follows [+-] on the
    [Slope] line under [Total:], applied to the errors of both variants. *)
Theorem uncertainty_formula (errs : list R) :
  errs <> [] -> Forall (fun e => 0 < e)%R errs ->
  uncertainty errs = sqrt (1 / Sum (fun e => 1 / e ^ 2) errs) /\
  (0 < Sum (fun e => 1 / e ^ 2) errs)%R /\
  uncertainty [1; 1]%R = (1 / sqrt 2)%R /\
  forall rudnick cb t,
    total_block rudnick cb = Ok t ->
    snd (Slope t) = uncertainty (results_err rudnick ++ results_err cb).
Proof.
  intros Hne Hpos. split; [|split; [|split]].
  - apply uncertainty_combined.
  - apply inverse_square_pos; assumption.
  - rewrite uncertainty_combined. unfold combined_uncertainty. cbn [Sum].
    replace (1 / (1 / 1 ^ 2 + (1 / 1 ^ 2 + 0)))%R with (/ 2)%R by lra.
    rewrite sqrt_inv. lra.
  - intros rudnick cb t H. unfold total_block in H. cbv zeta in H.
    repeat match type of H with
           | bind ?r _ = Ok _ => destruct r; cbn [bind] in H; [|discriminate H]
           end.
    injection H as <-. reflexivity.
Qed.

Lemma uncertainty_formula_witness :
  uncertainty [0.1; 0.2]%R = sqrt (1 / Sum (fun e => 1 / e ^ 2) [0.1; 0.2])%R /\
  (0 < Sum (fun e => 1 / e ^ 2) [0.1; 0.2])%R /\
  uncertainty [1; 1]%R = (1 / sqrt 2)%R /\
  forall rudnick cb t,
    total_block rudnick cb = Ok t ->
    snd (Slope t) = uncertainty (results_err rudnick ++ results_err cb).
Proof.
  apply (@uncertainty_formula [0.1; 0.2]%R).
  - discriminate.
  - repeat constructor; lra.
Defined.

(** C4, as stated, fails under [Total:]: for Pearson values
    [0.2, 0.4, 0.2, 0.8] with errors [0.1, 0.1, 0.1, 0.2] the printed
    aggregate is the inverse-variance weighted mean [4/13], not the plain
    mean [0.4]. *)
Lemma total_pearson_is_weighted :
  let tot := (pearson MCExamples.rudnick_columns ++ pearson MCExamples.cb_columns)%list in
  exists t,
    total_block MCExamples.rudnick_columns MCExamples.cb_columns = Ok t /\
    fst (Pearson_R t) = (4 / 13)%R /\
    np_mean tot = 0.4%R /\
    Pearson_R t <> (np_mean tot, sem tot).
Proof.
  cbv zeta.
  assert (Hr : aligned MCExamples.rudnick_columns) by (repeat split; reflexivity).
  assert (Hc : aligned MCExamples.cb_columns) by (repeat split; reflexivity).
  rewrite (total_block_aligned Hr Hc). eexists. split; [reflexivity|].
  assert (Hw : fst (Pearson_R
             {| Slope :=
                  (inverse_variance_mean
                     (combine (results MCExamples.rudnick_columns ++ results MCExamples.cb_columns)
                        (results_err MCExamples.rudnick_columns ++ results_err MCExamples.cb_columns)),
                   combined_uncertainty
                     (results_err MCExamples.rudnick_columns ++ results_err MCExamples.cb_columns));
                Pearson_R :=
                  (inverse_variance_mean
                     (combine (pearson MCExamples.rudnick_columns ++ pearson MCExamples.cb_columns)
                        (pearson_err MCExamples.rudnick_columns ++ pearson_err MCExamples.cb_columns)),
                   combined_uncertainty
                     (pearson_err MCExamples.rudnick_columns ++ pearson_err MCExamples.cb_columns));
                Spearman_R :=
                  (inverse_variance_mean
                     (combine (spearman MCExamples.rudnick_columns ++ spearman MCExamples.cb_columns)
                        (spearman_err MCExamples.rudnick_columns ++ spearman_err MCExamples.cb_columns)),
                   combined_uncertainty
                     (spearman_err MCExamples.rudnick_columns ++ spearman_err MCExamples.cb_columns)) |})
           = (4 / 13)%R).
  { cbn [Pearson_R fst]. unfold inverse_variance_mean.
    cbn [MCExamples.rudnick_columns MCExamples.cb_columns pearson pearson_err
         app combine Sum fst snd]. lra. }
  assert (Hm : np_mean (pearson MCExamples.rudnick_columns ++ pearson MCExamples.cb_columns)
               = 0.4%R).
  { rewrite np_mean_mean. unfold mean.
    cbn [MCExamples.rudnick_columns MCExamples.cb_columns pearson app Sum List.length].
    simpl INR. lra. }
  split; [exact Hw|]. split; [exact Hm|].
  intros E. apply (f_equal fst) in E. rewrite Hw in E. cbn [fst] in E.
  rewrite Hm in E. lra.
Qed.

(** C4, amended: under [UV-Subtract:] and under [Rudnick:] the Pearson R and
    Spearman R lines are the plain mean and the standard error of the mean;
    under [Total:] they are the inverse-variance weighted mean of the values
    of both variants and [sqrt(1 / Sum(1/e^2))] of their errors. *)
Theorem pearson_spearman_aggregates (rudnick cb : columns R) :
  aligned rudnick -> aligned cb ->
  (exists b, variant_block cb = Ok b /\
     Pearson_R b = (mean (pearson cb), standard_error (pearson cb)) /\
     Spearman_R b = (mean (spearman cb), standard_error (spearman cb))) /\
  (exists b, variant_block rudnick = Ok b /\
     Pearson_R b = (mean (pearson rudnick), standard_error (pearson rudnick)) /\
     Spearman_R b = (mean (spearman rudnick), standard_error (spearman rudnick))) /\
  (exists t, total_block rudnick cb = Ok t /\
     Pearson_R t =
       (inverse_variance_mean
          (combine (pearson rudnick ++ pearson cb)
                   (pearson_err rudnick ++ pearson_err cb)),
        combined_uncertainty (pearson_err rudnick ++ pearson_err cb)) /\
     Spearman_R t =
       (inverse_variance_mean
          (combine (spearman rudnick ++ spearman cb)
                   (spearman_err rudnick ++ spearman_err cb)),
        combined_uncertainty (spearman_err rudnick ++ spearman_err cb))).
Proof.
  intros Hr Hc. split; [|split].
  - rewrite (variant_block_aligned Hc). eexists. repeat split; reflexivity.
  - rewrite (variant_block_aligned Hr). eexists. repeat split; reflexivity.
  - rewrite (total_block_aligned Hr Hc). eexists. repeat split; reflexivity.
Qed.

Lemma pearson_spearman_aggregates_witness :
  aligned MCExamples.rudnick_columns /\ aligned MCExamples.cb_columns /\
  exists t, total_block MCExamples.rudnick_columns MCExamples.cb_columns = Ok t /\
     Pearson_R t =
       (inverse_variance_mean
          (combine (pearson MCExamples.rudnick_columns ++ pearson MCExamples.cb_columns)
                   (pearson_err MCExamples.rudnick_columns ++
                    pearson_err MCExamples.cb_columns)),
        combined_uncertainty (pearson_err MCExamples.rudnick_columns ++
                              pearson_err MCExamples.cb_columns)) /\
     Spearman_R t =
       (inverse_variance_mean
          (combine (spearman MCExamples.rudnick_columns ++ spearman MCExamples.cb_columns)
                   (spearman_err MCExamples.rudnick_columns ++
                    spearman_err MCExamples.cb_columns)),
        combined_uncertainty (spearman_err MCExamples.rudnick_columns ++
                              spearman_err MCExamples.cb_columns)).
Proof.
  assert (Hr : aligned MCExamples.rudnick_columns) by (repeat split; reflexivity).
  assert (Hc : aligned MCExamples.cb_columns) by (repeat split; reflexivity).
  split; [exact Hr|]. split; [exact Hc|].
  exact (proj2 (proj2 (@pearson_spearman_aggregates MCExamples.rudnick_columns
                         MCExamples.cb_columns Hr Hc))).
Defined.

(** ** More on [get_largest_divider] *)

Import Notions.

Section LargestDividerMore.

Local Open Scope Z_scope.

Lemma largest_divider_spec (inp max : Z) :
  2 <= max ->
  exists r,
    get_largest_divider inp max = Ok r /\
    1 <= r <= max - 1 /\ (r | inp) /\
    forall d, 1 <= d <= max - 1 -> (d | inp) -> d <= r.
Proof.
  intros Hmax.
  destruct (get_largest_divider_below inp Hmax) as (r & Hr & Hb & Hm & Hd).
  exists r. repeat split; try assumption; try lia.
  - apply Z.mod_divide; [lia | assumption].
  - intros d Hdb Hdiv.
    destruct (Z_le_gt_dec d r) as [Hle|Hgt]; [exact Hle|].
    exfalso. apply (Hd d); [lia|]. apply Z.mod_divide; [lia | assumption].
Qed.

Lemma largest_divider_no_candidate (inp max : Z) :
  max <= 0 ->
  get_largest_divider inp max =
    Raise (SystemExit "ERROR: code should not arrive here.").
Proof.
  intros Hmax. unfold get_largest_divider, range.
  replace (Z.to_nat max) with 0%nat by lia. reflexivity.
Qed.

Lemma largest_divider_fixed (inp max : Z) :
  1 <= inp < max -> get_largest_divider inp max = Ok inp.
Proof.
  intros Hin.
  destruct (@largest_divider_spec inp max) as (r & Hr & Hb & Hdiv & Hmax);
    [lia|].
  rewrite Hr. f_equal.
  assert (inp <= r) by (apply Hmax; [lia | apply Z.divide_refl]).
  assert (r <= inp) by (apply Z.divide_pos_le; [lia | assumption]).
  lia.
Qed.

(** For [max >= 2] the result is the largest divisor of [inp] below [max]:
    no [d] with [1 <= d <= max - 1] that divides [inp] exceeds it. *)
Theorem get_largest_divider_largest (inp max : Z) :
  2 <= max ->
  exists r,
    get_largest_divider inp max = Ok r /\
    1 <= r <= max - 1 /\ (r | inp) /\
    forall d, 1 <= d <= max - 1 -> (d | inp) -> d <= r.
Proof. apply largest_divider_spec. Qed.

Lemma get_largest_divider_largest_witness :
  exists r,
    get_largest_divider 48 10 = Ok r /\
    1 <= r <= 10 - 1 /\ (r | 48) /\
    forall d, 1 <= d <= 10 - 1 -> (d | 48) -> d <= r.
Proof.
  apply (@get_largest_divider_largest 48 10). lia.
Defined.

(** With [max <= 0] the loop has no candidate and the function leaves
    through [sys.exit], whatever the input. *)
Theorem get_largest_divider_exits (inp max : Z) :
  max <= 0 ->
  get_largest_divider inp max =
    Raise (SystemExit "ERROR: code should not arrive here.").
Proof. apply largest_divider_no_candidate. Qed.

Lemma get_largest_divider_exits_witness :
  get_largest_divider 64 (-3) =
    Raise (SystemExit "ERROR: code should not arrive here.").
Proof.
  apply (@get_largest_divider_exits 64 (-3)). lia.
Defined.

(** An input that is itself below the bound, and at least 1, is returned
    unchanged. *)
Theorem get_largest_divider_below_bound (inp max : Z) :
  1 <= inp < max -> get_largest_divider inp max = Ok inp.
Proof. apply largest_divider_fixed. Qed.

Lemma get_largest_divider_below_bound_witness :
  get_largest_divider 48 1000 = Ok 48.
Proof.
  apply (@get_largest_divider_below_bound 48 1000). lia.
Defined.

End LargestDividerMore.

(** ** Facts on strings *)

Section StringFacts.

Local Open Scope nat_scope.
Local Open Scope string_scope.

Lemma append_nil_r (s : string) : s ++ EmptyString = s.
Proof. induction s as [|c s IH]; cbn; [reflexivity|]. rewrite IH. reflexivity. Qed.

Lemma append_assoc (a b c : string) : (a ++ b) ++ c = a ++ (b ++ c).
Proof. induction a as [|x a IH]; cbn; [reflexivity|]. rewrite IH. reflexivity. Qed.

Lemma length_append (a b : string) :
  String.length (a ++ b) = String.length a + String.length b.
Proof. induction a as [|x a IH]; cbn; [reflexivity|]. rewrite IH. reflexivity. Qed.

Lemma append_inj_l (a b c : string) : a ++ b = a ++ c -> b = c.
Proof.
  induction a as [|x a IH]; cbn; intros H; [exact H|].
  injection H as H. exact (IH H).
Qed.

Lemma append_inj_r (t a b : string) : a ++ t = b ++ t -> a = b.
Proof.
  revert b. induction a as [|x a IH]; intros [|y b] H; cbn in H.
  - reflexivity.
  - exfalso. apply (f_equal String.length) in H. cbn in H.
    rewrite length_append in H. lia.
  - exfalso. apply (f_equal String.length) in H. cbn in H.
    rewrite length_append in H. lia.
  - injection H as -> H. rewrite (IH b H). reflexivity.
Qed.

Lemma prefix_nil (s : string) : String.prefix EmptyString s = true.
Proof. destruct s; reflexivity. Qed.

Lemma all_chars_app (p : ascii -> bool) (a b : string) :
  all_chars p (a ++ b) = all_chars p a && all_chars p b.
Proof.
  induction a as [|x a IH]; cbn; [reflexivity|].
  rewrite IH, andb_assoc. reflexivity.
Qed.

Lemma no_char_app (c : ascii) (a b : string) :
  no_char c (a ++ b) = no_char c a && no_char c b.
Proof. apply all_chars_app. Qed.

(** replacing a one-character string by nothing removes the character *)
Lemma replace_char (c : ascii) (s : string) :
  replace (String c EmptyString) EmptyString s = remove_char c s.
Proof.
  unfold replace. induction s as [|x s IH]; [reflexivity|].
  cbn [replace_from remove_char String.prefix].
  destruct (ascii_dec c x) as [->|Hne].
  - rewrite Ascii.eqb_refl. destruct s; cbn [String.length Nat.sub append]; exact IH.
  - assert (E : Ascii.eqb x c = false).
    { apply Ascii.eqb_neq. intros ->. apply Hne. reflexivity. }
    rewrite E, IH. reflexivity.
Qed.

Lemma remove_char_app (c : ascii) (a b : string) :
  remove_char c (a ++ b) = remove_char c a ++ remove_char c b.
Proof.
  induction a as [|x a IH]; cbn; [reflexivity|].
  destruct (Ascii.eqb x c); cbn; rewrite IH; reflexivity.
Qed.

Lemma remove_char_absent (c : ascii) (s : string) :
  no_char c s = true -> remove_char c s = s.
Proof.
  unfold no_char. induction s as [|x s IH]; cbn; [reflexivity|].
  intros H. apply andb_true_iff in H as [Hx Hs].
  apply negb_true_iff in Hx. rewrite Hx, (IH Hs). reflexivity.
Qed.

Lemma all_chars_remove_char (p : ascii -> bool) (c : ascii) (s : string) :
  all_chars p s = true -> all_chars p (remove_char c s) = true.
Proof.
  induction s as [|x s IH]; cbn; [reflexivity|].
  intros H. apply andb_true_iff in H as [Hx Hs].
  destruct (Ascii.eqb x c); cbn; [exact (IH Hs)|].
  rewrite Hx, (IH Hs). reflexivity.
Qed.

Lemma no_char_remove_char (c : ascii) (s : string) :
  no_char c (remove_char c s) = true.
Proof.
  unfold no_char. induction s as [|x s IH]; cbn; [reflexivity|].
  destruct (Ascii.eqb x c) eqn:E; cbn; [exact IH|].
  rewrite E, IH. reflexivity.
Qed.

Lemma split_on_from_absent (sep : ascii) (s cur : string) :
  no_char sep s = true -> split_on_from sep cur s = [cur ++ s].
Proof.
  unfold no_char. revert cur. induction s as [|x s IH]; intros cur H; cbn in *.
  - rewrite append_nil_r. reflexivity.
  - apply andb_true_iff in H as [Hx Hs]. apply negb_true_iff in Hx.
    rewrite Hx, (IH _ Hs), append_assoc. reflexivity.
Qed.

Lemma split_on_from_app (sep : ascii) (a s cur : string) :
  no_char sep a = true ->
  split_on_from sep cur (a ++ String sep s) =
  (cur ++ a) :: split_on_from sep EmptyString s.
Proof.
  unfold no_char. revert cur. induction a as [|x a IH]; intros cur H; cbn in *.
  - rewrite Ascii.eqb_refl, append_nil_r. reflexivity.
  - apply andb_true_iff in H as [Hx Ha]. apply negb_true_iff in Hx.
    rewrite Hx, (IH _ Ha), append_assoc. reflexivity.
Qed.

Lemma string_of_uint_digits (d : Decimal.uint) :
  all_chars is_digit (NilEmpty.string_of_uint d) = true.
Proof. induction d; cbn; try reflexivity; exact IHd. Qed.

Lemma string_of_uint_nonempty (d : Decimal.uint) :
  d <> Decimal.Nil -> NilEmpty.string_of_uint d <> EmptyString.
Proof. destruct d; cbn; intros H; try discriminate. contradiction. Qed.

(** [str] of a non-negative integer is a non-empty string of digits *)
Lemma str_of_Z_digits (z : Z) : (0 <= z)%Z -> isdigit (str_of_Z z) = true.
Proof.
  intros Hz. unfold str_of_Z. destruct z as [|p|p]; [reflexivity| |lia].
  cbn [Z.to_int NilZero.string_of_int]. unfold NilZero.string_of_uint.
  pose proof (DecimalPos.Unsigned.to_uint_nonnil p) as Hn.
  pose proof (string_of_uint_nonempty Hn) as Hne.
  pose proof (string_of_uint_digits (Pos.to_uint p)) as Hd.
  destruct (Pos.to_uint p); try contradiction;
    unfold isdigit; destruct (NilEmpty.string_of_uint _) eqn:E;
    try contradiction; try discriminate; exact Hd.
Qed.

Lemma str_of_Z_inj (a b : Z) : str_of_Z a = str_of_Z b -> a = b.
Proof.
  unfold str_of_Z. intros H.
  assert (Hnn : forall z, Z.to_int z <> Decimal.Pos Decimal.Nil /\
                          Z.to_int z <> Decimal.Neg Decimal.Nil).
  { intros [|p|p]; cbn; split; try discriminate;
      intros E; injection E as E;
      exact (DecimalPos.Unsigned.to_uint_nonnil p E). }
  apply DecimalZ.to_int_inj.
  assert (E : Some (Z.to_int a) = Some (Z.to_int b)).
  { rewrite <- (NilZero.isi (Z.to_int a)) by apply Hnn.
    rewrite <- (NilZero.isi (Z.to_int b)) by apply Hnn.
    rewrite H. reflexivity. }
  injection E as E. exact E.
Qed.

Lemma str_of_nat_inj (n m : nat) : str_of_nat n = str_of_nat m -> n = m.
Proof. unfold str_of_nat. intros H. apply str_of_Z_inj in H. lia. Qed.

Lemma str_of_nat_digits (n : nat) : isdigit (str_of_nat n) = true.
Proof. apply str_of_Z_digits. lia. Qed.

(** the command files of different turns of [run] have different names *)
Lemma cmd_file_inj (type : string) (n m : nat) :
  cmd_file type n = cmd_file type m -> n = m.
Proof.
  unfold cmd_file. intros H.
  apply append_inj_l in H. apply append_inj_l in H. apply append_inj_l in H.
  apply append_inj_r in H. apply str_of_nat_inj. exact H.
Qed.

End StringFacts.

(** ** More on [run] *)

Section RunFacts.

Local Open Scope nat_scope.
Local Open Scope string_scope.

Variable sh : string -> bool.
Variable type : string.

Lemma filter_keeps_all (A : Type) (p : A -> bool) (l : list A) :
  (forall x, In x l -> p x = true) -> filter p l = l.
Proof.
  induction l as [|x l IH]; cbn; intros H; [reflexivity|].
  rewrite (H x) by (left; reflexivity). rewrite IH; [reflexivity|].
  intros y Hy. apply H. right. exact Hy.
Qed.

Lemma NoDup_map_injective (A B : Type) (f : A -> B) (l : list A) :
  (forall x y, f x = f y -> x = y) -> NoDup l -> NoDup (map f l).
Proof.
  intros Hf H. induction H as [|x l Hx Hl IH]; cbn; constructor; [|exact IH].
  intros Hin. apply in_map_iff in Hin as (y & Hy & Hin).
  apply Hf in Hy. subst y. contradiction.
Qed.

Lemma io_tokens_firstn (toks : list string) (ms : string) (rest : list string)
    (j : nat) :
  (toks ++ flat_map io_tokens (firstn (S (S j)) (ms :: rest)))%list =
  ((toks ++ io_tokens ms) ++ flat_map io_tokens (firstn (S j) rest))%list.
Proof. cbn [firstn flat_map]. rewrite <- app_assoc. reflexivity. Qed.

Lemma io_tokens_first (toks : list string) (ms : string) (rest : list string) :
  (toks ++ flat_map io_tokens (firstn 1 (ms :: rest)))%list =
  (toks ++ io_tokens ms)%list.
Proof. cbn [firstn flat_map]. rewrite app_nil_r. reflexivity. Qed.

(** The loop of [run] over the measurement sets [l], counted from [n], when
    no command fails and no file of the world bears a name the loop uses. *)
Lemma run_loop_trace :
  (forall line, sh line = true) ->
  forall l n w self,
    (forall f j, In f (files w) -> n <= j -> fst f <> cmd_file type j) ->
    exists w',
      run_loop sh type (enumerate_from n l) w self =
        (w', Ok (add_cmd (flat_map io_tokens l) self)) /\
      files w' =
        (files w ++
         map (fun j => (cmd_file type (n + j),
                        join nl (cmd self ++ flat_map io_tokens (firstn (S j) l))))
             (seq 0 (List.length l)))%list /\
      calls w' =
        (calls w ++
         map (fun j => join " " (cmd self ++ flat_map io_tokens (firstn (S j) l)))
             (seq 0 (List.length l)))%list.
Proof.
  intros Hsh l. induction l as [|ms rest IH]; intros n w self Hw.
  - exists w. cbn. rewrite add_cmd_nil, !app_nil_r. repeat split; reflexivity.
  - cbn [enumerate_from run_loop]. unfold run_body. rewrite Hsh.
    set (self1 := add_cmd (io_tokens ms) self).
    set (w1 := record_call (join " " (cmd self1))
                 (write_file (cmd_file type n) (join nl (cmd self1)) w)).
    assert (Hf1 : files w1 =
                  (files w ++ [(cmd_file type n, join nl (cmd self1))])%list).
    { unfold w1. cbn [files record_call write_file].
      rewrite filter_keeps_all; [reflexivity|].
      intros f Hf. apply negb_true_iff. apply String.eqb_neq.
      apply (Hw f n Hf). apply Nat.le_refl. }
    destruct (IH (S n) w1 self1) as (w' & Hrun & Hfiles & Hcalls).
    { intros f j Hf Hj. rewrite Hf1 in Hf. apply in_app_or in Hf as [Hf|Hf].
      - apply (Hw f j Hf). lia.
      - destruct Hf as [<-|[]]. cbn [fst]. intros E.
        apply cmd_file_inj in E. lia. }
    exists w'. rewrite Hrun. split; [|split].
    + unfold self1. rewrite add_cmd_add_cmd. reflexivity.
    + rewrite Hfiles, Hf1. cbn [List.length]. rewrite <- cons_seq, <- seq_shift.
      cbn [map]. rewrite map_map, <- app_assoc. cbn [app].
      rewrite Nat.add_0_r, io_tokens_first. f_equal. f_equal.
      apply map_ext. intros j. rewrite io_tokens_firstn, Nat.add_succ_r.
      reflexivity.
    + rewrite Hcalls. unfold w1 at 1. cbn [calls record_call write_file List.length].
      rewrite <- cons_seq, <- seq_shift.
      cbn [map]. rewrite map_map, <- app_assoc. cbn [app].
      rewrite io_tokens_first. f_equal. f_equal.
      apply map_ext. intros j. rewrite io_tokens_firstn. reflexivity.
Qed.

(** With a tool that never fails, [run] writes one command file and issues
    one command per measurement set, in order; the files have pairwise
    different names, so none replaces another, and the file and the
    command of the set of index [n] hold the tokens [run] found followed by
    the pairs of the sets [0..n].  Afterwards only the token list has
    changed: it is the base template, the measurement sets and the step
    names are as before. *)
Theorem run_writes_one_file_per_set (w : world) (self : SubtractDP3) :
  (forall line, sh line = true) ->
  (forall f n, In f (files w) -> fst f <> cmd_file type n) ->
  let sets := seq 0 (List.length (mslist self)) in
  exists w',
    run sh type w self =
      (w', Ok {| mslist := mslist self; cmd := base_cmd; steps := steps self |}) /\
    files w' =
      (files w ++
       map (fun n => (cmd_file type n, join nl (command_tokens self n))) sets)%list /\
    calls w' =
      (calls w ++ map (fun n => join " " (command_tokens self n)) sets)%list /\
    NoDup (map (cmd_file type) sets).
Proof.
  intros Hsh Hw sets.
  destruct (@run_loop_trace Hsh (mslist self) 0 w self) as (w' & Hrun & Hf & Hc).
  { intros f j Hf _. apply Hw. exact Hf. }
  exists w'. unfold run, enumerate. rewrite Hrun. repeat split.
  - exact Hf.
  - exact Hc.
  - apply NoDup_map_injective; [|apply seq_NoDup].
    intros n m. apply cmd_file_inj.
Qed.

Lemma run_loop_failure :
  forall l k n w self,
    k < List.length l ->
    (forall j, j < k ->
       sh (join " " (cmd self ++ flat_map io_tokens (firstn (S j) l))) = true) ->
    sh (join " " (cmd self ++ flat_map io_tokens (firstn (S k) l))) = false ->
    exists w',
      run_loop sh type (enumerate_from n l) w self = (w', Raise CalledProcessError) /\
      calls w' =
        (calls w ++
         map (fun j => join " " (cmd self ++ flat_map io_tokens (firstn (S j) l)))
             (seq 0 (S k)))%list /\
      In (cmd_file type (n + k),
          join nl (cmd self ++ flat_map io_tokens (firstn (S k) l))) (files w').
Proof.
  induction l as [|ms rest IH]; intros k n w self Hk Hok Hfail; [cbn in Hk; lia|].
  cbn [enumerate_from run_loop]. unfold run_body.
  destruct k as [|k].
  - rewrite io_tokens_first in Hfail. cbn [cmd add_cmd]. rewrite Hfail.
    eexists. split; [reflexivity|]. split.
    + cbn [calls record_call write_file seq map]. rewrite io_tokens_first.
      reflexivity.
    + cbn [files record_call write_file]. apply in_or_app. right. left.
      rewrite Nat.add_0_r, io_tokens_first. reflexivity.
  - pose proof (Hok 0 (Nat.lt_0_succ k)) as H0. rewrite io_tokens_first in H0.
    cbn [cmd add_cmd]. rewrite H0.
    set (self1 := add_cmd (io_tokens ms) self).
    set (w1 := record_call (join " " (cmd self ++ io_tokens ms))
                 (write_file (cmd_file type n)
                    (join nl (cmd self ++ io_tokens ms)) w)).
    destruct (IH k (S n) w1 self1) as (w' & Hrun & Hcalls & Hin).
    + cbn in Hk. lia.
    + intros j Hj. unfold self1. cbn [cmd add_cmd].
      rewrite <- io_tokens_firstn. apply Hok. lia.
    + unfold self1. cbn [cmd add_cmd]. rewrite <- io_tokens_firstn. exact Hfail.
    + exists w'. fold self1. split; [exact Hrun|]. split.
      * rewrite Hcalls. unfold w1 at 1.
        cbn [calls record_call write_file].
        rewrite <- (cons_seq (S k)), <- seq_shift.
        cbn [map]. rewrite map_map, <- app_assoc. cbn [app].
        rewrite io_tokens_first. f_equal. f_equal.
        apply map_ext. intros j. unfold self1. cbn [cmd add_cmd].
        rewrite io_tokens_firstn. reflexivity.
      * rewrite Nat.add_succ_r, io_tokens_firstn. exact Hin.
Qed.

(** [run] stops at the first command that fails: when the command of the
    set of index [k] is the first to exit with a non-zero status, [run]
    raises [CalledProcessError]; it has then issued the commands of the sets
    [0..k] and no other, the command file of set [k] is written, and the
    token list is not reset. *)
Theorem run_stops_at_first_failure (w : world) (self : SubtractDP3) (k : nat) :
  k < List.length (mslist self) ->
  (forall j, j < k -> sh (join " " (command_tokens self j)) = true) ->
  sh (join " " (command_tokens self k)) = false ->
  exists w',
    run sh type w self = (w', Raise CalledProcessError) /\
    calls w' =
      (calls w ++ map (fun j => join " " (command_tokens self j)) (seq 0 (S k)))%list /\
    In (cmd_file type k, join nl (command_tokens self k)) (files w').
Proof.
  intros Hk Hok Hfail.
  destruct (@run_loop_failure (mslist self) k 0 w self Hk Hok Hfail)
    as (w' & Hrun & Hcalls & Hin).
  exists w'. unfold run, enumerate. rewrite Hrun. repeat split; assumption.
Qed.

End RunFacts.

Lemma run_writes_one_file_per_set_witness :
  let self := Examples.after_predict in
  let sets := seq 0 (List.length (mslist self)) in
  exists w',
    run Examples.sh_ok "predict" empty_world self =
      (w', Ok {| mslist := mslist self; cmd := base_cmd; steps := steps self |}) /\
    files w' =
      (files empty_world ++
       map (fun n => (cmd_file "predict" n, join nl (command_tokens self n))) sets)%list /\
    calls w' =
      (calls empty_world ++
       map (fun n => join " " (command_tokens self n)) sets)%list /\
    NoDup (map (cmd_file "predict") sets).
Proof.
  apply (@run_writes_one_file_per_set Examples.sh_ok "predict" empty_world
           Examples.after_predict).
  - intros line. reflexivity.
  - intros f n [].
Defined.

Lemma run_stops_at_first_failure_witness :
  exists w',
    run (fun _ => false) "predict" empty_world Examples.after_predict =
      (w', Raise CalledProcessError) /\
    calls w' =
      (calls empty_world ++
       map (fun j => join " " (command_tokens Examples.after_predict j))
           (seq 0 1))%list /\
    In (cmd_file "predict" 0, join nl (command_tokens Examples.after_predict 0))
       (files w').
Proof.
  apply (@run_stops_at_first_failure (fun _ => false) "predict"%string empty_world
           Examples.after_predict 0).
  - cbn. lia.
  - intros j Hj. lia.
  - reflexivity.
Defined.

(** ** More on [moreDP3] *)

Section MoreDP3Facts.

Local Open Scope nat_scope.
Local Open Scope string_scope.

Variable open_file : string -> result h5file.

Local Abbreviation P := (fun t : string => moreDP3_token t = true).
Local Abbreviation Q := (fun n : string => plain_name n = true).

Ltac tokens :=
  repeat constructor;
  try (cbn; rewrite ?prefix_nil; reflexivity).

Lemma appends_refl (s : SubtractDP3) : appends P Q s s.
Proof.
  split; [reflexivity|]. exists [], []. rewrite !app_nil_r.
  repeat split; constructor.
Qed.

Lemma appends_trans (s1 s2 s3 : SubtractDP3) :
  appends P Q s1 s2 -> appends P Q s2 s3 -> appends P Q s1 s3.
Proof.
  intros (Hm1 & t1 & n1 & Hc1 & Hs1 & Ht1 & Hn1)
         (Hm2 & t2 & n2 & Hc2 & Hs2 & Ht2 & Hn2).
  split; [congruence|]. exists (t1 ++ t2)%list, (n1 ++ n2)%list.
  rewrite Hc2, Hc1, Hs2, Hs1, <- !app_assoc.
  repeat split; apply Forall_app; split; assumption.
Qed.

Lemma appends_add_cmd (toks : list string) (s : SubtractDP3) :
  Forall P toks -> appends P Q s (add_cmd toks s).
Proof.
  intros H. split; [reflexivity|]. exists toks, []. cbn. rewrite app_nil_r.
  repeat split; [exact H | constructor].
Qed.

Lemma appends_add_step (name : string) (s : SubtractDP3) :
  Q name -> appends P Q s (add_step name s).
Proof.
  intros H. split; [reflexivity|]. exists [], [name]. cbn. rewrite app_nil_r.
  repeat split; [constructor | constructor; [exact H | constructor]].
Qed.

Lemma digits_plain (s : string) : all_chars is_digit s = true -> plain_name s = true.
Proof.
  intros H. unfold plain_name, no_char. apply andb_true_iff. split.
  - apply all_chars_impl with (p := is_digit); [|exact H].
    intros c Hc. destruct c as [[] [] [] [] [] [] [] []]; try discriminate Hc; reflexivity.
  - apply all_chars_impl with (p := is_digit); [|exact H].
    intros c Hc. destruct c as [[] [] [] [] [] [] [] []]; try discriminate Hc; reflexivity.
Qed.

Lemma isdigit_all_chars (s : string) : isdigit s = true -> all_chars is_digit s = true.
Proof. destruct s; [discriminate|]. exact (fun H => H). Qed.

Lemma ac_name_plain (n : nat) : plain_name (ac_name n) = true.
Proof.
  unfold ac_name.
  pose proof (digits_plain _ (isdigit_all_chars _ (str_of_nat_digits n))) as H.
  unfold plain_name, no_char in *. cbn. exact H.
Qed.

Lemma stage_phaseshift_appends (p : option string) (s s' : SubtractDP3) :
  stage_phaseshift p s = Ok s' -> appends P Q s s'.
Proof.
  unfold stage_phaseshift. destruct p as [p|].
  - destruct (index _ 0) as [p0|]; cbn [bind]; [|discriminate].
    destruct (index _ 1) as [p1|]; cbn [bind]; [|discriminate].
    intros H. injection H as <-.
    eapply appends_trans; [apply (@appends_add_step "ps"); reflexivity|].
    apply appends_add_cmd. tokens.
  - intros H. injection H as <-. apply appends_refl.
Qed.

Lemma stage_applybeam_appends (b : bool) (s : SubtractDP3) :
  appends P Q s (stage_applybeam b s).
Proof.
  destruct b; cbn; [|apply appends_refl].
  eapply appends_trans; [apply (@appends_add_step "beam"); reflexivity|].
  apply appends_add_cmd. tokens.
Qed.

Lemma applycal_loop_appends (h5 : string) (keys : list string) :
  forall n s, appends P Q s (applycal_loop h5 n keys s).
Proof.
  induction keys as [|corr keys IH]; intros n s; cbn [applycal_loop].
  - apply appends_refl.
  - eapply appends_trans; [|apply IH].
    eapply appends_trans; [|apply appends_add_step; apply ac_name_plain].
    apply appends_add_cmd. tokens.
Qed.

Lemma stage_applycal_appends (h5 : option string) (s s' : SubtractDP3) :
  stage_applycal open_file h5 s = Ok s' -> appends P Q s s'.
Proof.
  unfold stage_applycal. destruct h5 as [h5|].
  - destruct (isfulljones open_file h5) as [[|]|]; cbn [bind]; [| |discriminate].
    + intros H. injection H as <-.
      eapply appends_trans; [apply (@appends_add_step "ac"); reflexivity|].
      apply appends_add_cmd. tokens.
    + destruct (open_file h5) as [T|]; cbn [bind]; [|discriminate].
      intros H. injection H as <-. apply applycal_loop_appends.
  - intros H. injection H as <-. apply appends_refl.
Qed.

Lemma freq_token_prefix (f : pyval) (t : string) :
  freq_token f = Ok t -> P t.
Proof.
  unfold freq_token.
  destruct (isdigit (str f)).
  - destruct (int f); cbn [bind]; [|discriminate].
    intros H. injection H as <-. reflexivity.
  - destruct (last_char (str f)) as [c|]; cbn [bind]; [|discriminate].
    destruct (negb (is_alpha c)).
    + destruct (int f); cbn [bind]; [|discriminate].
      intros H. injection H as <-. reflexivity.
    + intros H. injection H as <-. reflexivity.
Qed.

Lemma time_token_prefix (f : pyval) (t : string) :
  time_token f = Ok t -> P t.
Proof.
  unfold time_token.
  destruct (isdigit (str f)).
  - destruct (int f); cbn [bind]; [|discriminate].
    intros H. injection H as <-. reflexivity.
  - intros H. injection H as <-. reflexivity.
Qed.

Lemma stage_averaging_appends (fa ta : option pyval) (s s' : SubtractDP3) :
  stage_averaging fa ta s = Ok s' -> appends P Q s s'.
Proof.
  assert (Havg : appends P Q s (add_cmd ["avg.type=averager"] (add_step "avg" s))).
  { eapply appends_trans; [apply (@appends_add_step "avg"); reflexivity|].
    apply appends_add_cmd. tokens. }
  unfold stage_averaging. destruct fa as [f|], ta as [t|].
  - destruct (freq_token f) as [tf|] eqn:Ef; cbn [bind]; [|discriminate].
    destruct (time_token t) as [tt|] eqn:Et; cbn [bind]; [|discriminate].
    intros H. injection H as <-.
    eapply appends_trans; [exact Havg|].
    eapply appends_trans; apply appends_add_cmd; tokens.
    + exact (freq_token_prefix f Ef).
    + exact (time_token_prefix t Et).
  - destruct (freq_token f) as [tf|] eqn:Ef; cbn [bind]; [|discriminate].
    intros H. injection H as <-.
    eapply appends_trans; [exact Havg|].
    apply appends_add_cmd; tokens. exact (freq_token_prefix f Ef).
  - cbn [bind].
    destruct (time_token t) as [tt|] eqn:Et; cbn [bind]; [|discriminate].
    intros H. injection H as <-.
    eapply appends_trans; [exact Havg|].
    apply appends_add_cmd; tokens. exact (time_token_prefix t Et).
  - intros H. injection H as <-. apply appends_refl.
Qed.

Lemma stage_io_appends (concat : bool) (s : SubtractDP3) :
  appends P Q s (stage_io concat s).
Proof.
  unfold stage_io. destruct concat.
  - apply appends_add_cmd. tokens.
  - generalize (mslist s) as l. intros l. revert s.
    induction l as [|ms l IH]; intros s; cbn [fold_left].
    + apply appends_refl.
    + eapply appends_trans; [|apply IH].
      apply appends_add_cmd. tokens.
Qed.

Lemma stage_io_steps (concat : bool) (s : SubtractDP3) :
  steps (stage_io concat s) = steps s.
Proof.
  unfold stage_io. destruct concat; [reflexivity|].
  generalize (mslist s) as l. intros l. revert s.
  induction l as [|ms l IH]; intros s; cbn [fold_left]; [reflexivity|].
  rewrite IH. reflexivity.
Qed.

(** The state in which [moreDP3] computes its [steps=] token. *)
Lemma moreDP3_stages (phaseshift : option string) (freqavg timeavg : option pyval)
    (concat applybeam : bool) (applycal_h5 : option string) (s s' : SubtractDP3) :
  moreDP3 open_file phaseshift freqavg timeavg concat applybeam applycal_h5 s = Ok s' ->
  exists s4,
    appends P Q (add_cmd ["msin.datacolumn=SUBTRACT_DATA"] s) s4 /\
    s' = stage_io concat (add_cmd [steps_token s4] s4).
Proof.
  unfold moreDP3.
  destruct (stage_phaseshift _ _) as [s1|] eqn:E1; cbn [bind]; [|discriminate].
  destruct (stage_applycal _ _ _) as [s3|] eqn:E3; cbn [bind]; [|discriminate].
  destruct (stage_averaging _ _ _) as [s4|] eqn:E4; cbn [bind]; [|discriminate].
  intros H. injection H as <-. exists s4. split; [|reflexivity].
  eapply appends_trans; [exact (stage_phaseshift_appends _ _ E1)|].
  eapply appends_trans; [apply stage_applybeam_appends|].
  eapply appends_trans; [exact (stage_applycal_appends _ _ E3)|].
  exact (stage_averaging_appends _ _ _ E4).
Qed.

Lemma moreDP3_appends (phaseshift : option string)
    (freqavg timeavg : option pyval) (concat applybeam : bool)
    (applycal_h5 : option string) (s s' : SubtractDP3) :
  moreDP3 open_file phaseshift freqavg timeavg concat applybeam applycal_h5 s = Ok s' ->
  mslist s' = mslist s /\
  exists toks names,
    cmd s' = (cmd s ++ "msin.datacolumn=SUBTRACT_DATA" :: toks)%list /\
    steps s' = (steps s ++ names)%list /\
    Forall (fun t => moreDP3_token t = true) toks /\
    Forall (fun n => plain_name n = true) names.
Proof.
  intros H. destruct (moreDP3_stages _ _ _ _ _ _ _ H) as (s4 & Hs4 & ->).
  assert (Hall : appends P Q (add_cmd ["msin.datacolumn=SUBTRACT_DATA"] s)
                   (stage_io concat (add_cmd [steps_token s4] s4))).
  { eapply appends_trans; [exact Hs4|].
    eapply appends_trans; [|apply stage_io_appends].
    apply appends_add_cmd. tokens. }
  destruct Hall as (Hm & toks & names & Hc & Hs & Ht & Hn).
  split; [exact Hm|]. exists toks, names.
  rewrite Hc, Hs. cbn [cmd steps add_cmd]. rewrite <- app_assoc.
  repeat split; assumption.
Qed.

(** [moreDP3] only appends.  When it returns, the measurement sets are as
    before, the tokens and the step names that were there are still there,
    in place; the first token it appends is [msin.datacolumn=SUBTRACT_DATA],
    every token it appends begins with one of [moreDP3_prefixes], and the
    step names it appends hold neither a space nor a quote. *)
Theorem moreDP3_only_appends (phaseshift : option string)
    (freqavg timeavg : option pyval) (concat applybeam : bool)
    (applycal_h5 : option string) (s s' : SubtractDP3) :
  moreDP3 open_file phaseshift freqavg timeavg concat applybeam applycal_h5 s = Ok s' ->
  mslist s' = mslist s /\
  exists toks names,
    cmd s' = (cmd s ++ "msin.datacolumn=SUBTRACT_DATA" :: toks)%list /\
    steps s' = (steps s ++ names)%list /\
    Forall (fun t => moreDP3_token t = true) toks /\
    Forall (fun n => plain_name n = true) names.
Proof. apply moreDP3_appends. Qed.

End MoreDP3Facts.

Section MoreDP3Examples.

Local Open Scope nat_scope.
Local Open Scope string_scope.

Lemma moreDP3_only_appends_witness :
  let s := init Examples.two_sets in
  let s' := stage_io false
              (add_cmd ["steps=[beam]"] 
                 (stage_applybeam true (add_cmd ["msin.datacolumn=SUBTRACT_DATA"] s))) in
  mslist s' = mslist s /\
  exists toks names,
    cmd s' = (cmd s ++ "msin.datacolumn=SUBTRACT_DATA" :: toks)%list /\
    steps s' = (steps s ++ names)%list /\
    Forall (fun t => moreDP3_token t = true) toks /\
    Forall (fun n => plain_name n = true) names.
Proof.
  apply (@moreDP3_only_appends Examples.open_example None None None false true None
           (init Examples.two_sets)).
  reflexivity.
Defined.

End MoreDP3Examples.

Section StepsToken.

Local Open Scope nat_scope.
Local Open Scope string_scope.

Variable open_file : string -> result h5file.

Lemma plain_name_quoted (x : string) :
  plain_name x = true ->
  remove_char "'" (remove_char " " ("'" ++ x ++ "'")) = x.
Proof.
  unfold plain_name. intros H. apply andb_true_iff in H as [Hs Hq].
  rewrite !remove_char_app. cbn [remove_char Ascii.eqb Bool.eqb].
  rewrite (remove_char_absent _ _ Hs), (remove_char_absent _ _ Hq).
  cbn [append]. apply append_nil_r.
Qed.

Lemma join_quoted (l : list string) :
  Forall (fun n => plain_name n = true) l ->
  remove_char "'" (remove_char " " (join ", " (map (fun s => "'" ++ s ++ "'") l))) =
  join "," l.
Proof.
  unfold join. induction l as [|x l IH]; intros H; [reflexivity|].
  inversion H as [|y l' Hx Hl]; subst.
  destruct l as [|z l].
  - cbn [map String.concat]. apply plain_name_quoted. exact Hx.
  - cbn [map String.concat] in *.
    rewrite (remove_char_app " "), (remove_char_app "'").
    rewrite (plain_name_quoted _ Hx).
    rewrite (remove_char_app " " ", "), (remove_char_app "'").
    rewrite (IH Hl). reflexivity.
Qed.

(** When no step name holds a space or a quote, the [steps=] token lists
    the names between square brackets, separated by commas. *)
Lemma steps_token_plain (s : SubtractDP3) :
  Forall (fun n => plain_name n = true) (steps s) ->
  steps_token s = "steps=[" ++ join "," (steps s) ++ "]".
Proof.
  intros H. unfold steps_token, str_of_list.
  change " " with (String " " EmptyString) at 1.
  rewrite (replace_char " "), (replace_char "'").
  rewrite !remove_char_app. cbn [remove_char Ascii.eqb Bool.eqb].
  rewrite (join_quoted H). reflexivity.
Qed.

Lemma moreDP3_steps_token_in (phaseshift : option string)
    (freqavg timeavg : option pyval) (concat applybeam : bool)
    (applycal_h5 : option string) (s s' : SubtractDP3) :
  Forall (fun n => plain_name n = true) (steps s) ->
  moreDP3 open_file phaseshift freqavg timeavg concat applybeam applycal_h5 s = Ok s' ->
  In ("steps=[" ++ join "," (steps s') ++ "]") (cmd s').
Proof.
  intros Hplain H.
  destruct (moreDP3_stages _ _ _ _ _ _ _ _ H) as (s4 & (Hm & toks & names & Hc & Hs & Ht & Hn) & ->).
  rewrite stage_io_steps. cbn [steps add_cmd].
  assert (Hp4 : Forall (fun n => plain_name n = true) (steps s4)).
  { rewrite Hs. cbn [steps add_cmd]. apply Forall_app. split; assumption. }
  rewrite <- (steps_token_plain _ Hp4).
  destruct (stage_io_appends concat (add_cmd [steps_token s4] s4))
    as (_ & toks' & names' & Hc' & _).
  rewrite Hc'. cbn [cmd add_cmd]. apply in_or_app. left.
  apply in_or_app. right. left. reflexivity.
Qed.

(** The [steps=] token [moreDP3] emits lists, in order and separated by
    commas, all the steps enabled so far: those that were enabled before
    the call as well as those the call enables. *)
Theorem moreDP3_steps_token (phaseshift : option string)
    (freqavg timeavg : option pyval) (concat applybeam : bool)
    (applycal_h5 : option string) (s s' : SubtractDP3) :
  Forall (fun n => plain_name n = true) (steps s) ->
  moreDP3 open_file phaseshift freqavg timeavg concat applybeam applycal_h5 s = Ok s' ->
  In ("steps=[" ++ join "," (steps s') ++ "]") (cmd s').
Proof. apply moreDP3_steps_token_in. Qed.

End StepsToken.

Section StepsTokenExamples.

Local Open Scope nat_scope.
Local Open Scope string_scope.

Lemma moreDP3_steps_token_witness :
  let s := Examples.after_predict in
  let s' := stage_io false
              (add_cmd ["steps=[predict,beam]"]
                 (stage_applybeam true (add_cmd ["msin.datacolumn=SUBTRACT_DATA"] s))) in
  In ("steps=[" ++ join "," (steps s') ++ "]") (cmd s').
Proof.
  apply (@moreDP3_steps_token Examples.open_example None None None false true None
           Examples.after_predict).
  - repeat constructor.
  - reflexivity.
Defined.

End StepsTokenExamples.

Section StageFacts.

Local Open Scope nat_scope.
Local Open Scope string_scope.

Variable open_file : string -> result h5file.

Lemma strip_brackets_replace (p : string) :
  replace "]" EmptyString (replace "[" EmptyString p) = strip_brackets p.
Proof.
  unfold strip_brackets. rewrite (replace_char "["), (replace_char "]").
  reflexivity.
Qed.

Lemma strip_brackets_no_comma (p : string) :
  no_char "," p = true -> no_char "," (strip_brackets p) = true.
Proof.
  intros H. unfold strip_brackets, no_char.
  apply all_chars_remove_char, all_chars_remove_char. exact H.
Qed.

(** A phase centre without a comma has a single coordinate: whatever the
    other arguments, [moreDP3] raises [IndexError] when it reads the second
    one. *)
Theorem moreDP3_phaseshift_without_comma (p : string)
    (freqavg timeavg : option pyval) (concat applybeam : bool)
    (applycal_h5 : option string) (s : SubtractDP3) :
  no_char "," p = true ->
  moreDP3 open_file (Some p) freqavg timeavg concat applybeam applycal_h5 s =
    Raise IndexError.
Proof.
  intros H. unfold moreDP3, stage_phaseshift.
  rewrite strip_brackets_replace. unfold split_on.
  rewrite (split_on_from_absent _ _ _ (strip_brackets_no_comma _ H)).
  reflexivity.
Qed.

(** For a phase centre [a,b], with or without square brackets around it,
    the phase-shift block enables the step [ps] and emits
    [ps.phasecenter=[a,b]] with the brackets of the argument removed and
    its own put around. *)
Theorem stage_phaseshift_two_coordinates (a b : string) (s : SubtractDP3) :
  no_char "," a = true -> no_char "," b = true ->
  stage_phaseshift (Some (a ++ "," ++ b)) s =
    Ok (add_cmd ["ps.type=phaseshifter";
                 "ps.phasecenter=[" ++ strip_brackets a ++ "," ++ strip_brackets b ++ "]"]
          (add_step "ps" s)).
Proof.
  intros Ha Hb. unfold stage_phaseshift.
  rewrite strip_brackets_replace. unfold strip_brackets.
  rewrite !remove_char_app. cbn [remove_char Ascii.eqb Bool.eqb].
  fold (strip_brackets a). fold (strip_brackets b).
  change ("," ++ strip_brackets b) with (String "," (strip_brackets b)).
  unfold split_on.
  rewrite (split_on_from_app _ _ _ _ (strip_brackets_no_comma _ Ha)).
  rewrite (split_on_from_absent _ _ _ (strip_brackets_no_comma _ Hb)).
  cbn [append]. rewrite index_0_cons. cbn [bind].
  reflexivity.
Qed.

Lemma last_char_digits (s : string) :
  isdigit s = true -> exists c, last_char s = Ok c /\ is_digit c = true.
Proof.
  intros H. assert (Hl : exists c, last_char s = Ok c).
  { destruct s as [|x s]; [discriminate|]. clear H. revert x.
    induction s as [|y s IH]; intros x.
    - exists x. reflexivity.
    - destruct (IH y) as (c & Hc). exists c. exact Hc. }
  destruct Hl as (c & Hc). exists c. split; [exact Hc|].
  exact (isdigit_last_char s H Hc).
Qed.

Lemma last_char_str_of_Z (z : Z) :
  exists c, last_char (str_of_Z z) = Ok c /\ is_digit c = true.
Proof.
  destruct (Z_lt_le_dec z 0) as [Hneg|Hpos].
  - destruct z as [|p|p]; try lia.
    destruct (last_char_digits _ (@str_of_Z_digits (Z.pos p) ltac:(lia)))
      as (c & Hc & Hd).
    exists c. split; [|exact Hd].
    unfold str_of_Z in *. cbn [Z.to_int NilZero.string_of_int] in *.
    destruct (NilZero.string_of_uint (Pos.to_uint p)); [discriminate Hc|].
    exact Hc.
  - apply last_char_digits, str_of_Z_digits. exact Hpos.
Qed.

(** Integer averaging factors, as the wide-field branch passes them, yield
    the step-count tokens with the integers printed in decimal; the
    averaging block cannot fail on them. *)
Theorem stage_averaging_integers (n m : Z) (s : SubtractDP3) :
  (0 <= m)%Z ->
  stage_averaging (Some (PyInt n)) (Some (PyInt m)) s =
    Ok (add_cmd ["avg.timestep=" ++ str_of_Z m]
          (add_cmd ["avg.freqstep=" ++ str_of_Z n]
             (add_cmd ["avg.type=averager"] (add_step "avg" s)))).
Proof.
  intros Hm. unfold stage_averaging, freq_token, time_token. cbn [str int].
  rewrite (str_of_Z_digits Hm).
  destruct (isdigit (str_of_Z n)); cbn [bind]; [reflexivity|].
  destruct (last_char_str_of_Z n) as (c & Hc & Hd).
  rewrite Hc. cbn [bind]. rewrite (digit_not_alpha c Hd). reflexivity.
Qed.

(** The time-averaging argument never makes the averaging block fail: a
    string of digits yields [avg.timestep] with the integer it denotes,
    any other string is handed over unchanged as [avg.timeresolution]. *)
Theorem stage_averaging_time (t : string) (s : SubtractDP3) :
  stage_averaging None (Some (PyStr t)) s =
    Ok (add_cmd [if isdigit t then "avg.timestep=" ++ str_of_Z (decimal_value t)
                 else "avg.timeresolution=" ++ t]
          (add_cmd ["avg.type=averager"] (add_step "avg" s))).
Proof.
  unfold stage_averaging, time_token. cbn [str int bind].
  destruct (isdigit t) eqn:Hd; [|reflexivity].
  rewrite (int_of_string_digits t Hd). reflexivity.
Qed.

Lemma int_digits_stops (d : string) (c : ascii) (r : string) :
  all_chars is_digit d = true -> is_digit c = false -> c <> "_"%char ->
  forall acc prev, int_digits acc prev (d ++ String c r) = Raise ValueError.
Proof.
  intros Hd Hc Hu. induction d as [|x d IH]; intros acc prev.
  - cbn. rewrite Hc.
    assert (E : Ascii.eqb c "_" = false) by (apply Ascii.eqb_neq; exact Hu).
    rewrite E. reflexivity.
  - cbn in Hd. apply andb_true_iff in Hd as [Hx Hd].
    cbn [append int_digits]. rewrite Hx. apply IH. exact Hd.
Qed.

(** A frequency-averaging argument written with a decimal point, such as
    [2.5], is not a string of digits and does not end in a letter: it is
    handed to [int], and [moreDP3] raises [ValueError].  An empty argument
    raises [IndexError]. *)
Theorem moreDP3_freqavg_decimal (a b : string) (timeavg : option pyval)
    (concat applybeam : bool) (s : SubtractDP3) :
  isdigit a = true -> isdigit b = true ->
  moreDP3 open_file None (Some (PyStr (a ++ "." ++ b))) timeavg concat applybeam
    None s = Raise ValueError /\
  moreDP3 open_file None (Some (PyStr EmptyString)) timeavg concat applybeam
    None s = Raise IndexError.
Proof.
  intros Ha Hb. split.
  2: { unfold moreDP3, stage_averaging, freq_token. cbn. destruct timeavg; reflexivity. }
  pose proof (isdigit_all_chars _ Ha) as Ha'.
  pose proof (isdigit_all_chars _ Hb) as Hb'.
  assert (Hnd : isdigit (a ++ "." ++ b) = false).
  { destruct a as [|x a]; [discriminate|]. unfold isdigit.
    rewrite all_chars_app. cbn [append all_chars].
    replace (is_digit ".") with false by reflexivity.
    rewrite andb_false_r. reflexivity. }
  assert (Hlast : exists c, last_char (a ++ "." ++ b) = Ok c /\ is_digit c = true).
  { destruct (last_char_digits _ Hb) as (c & Hc & Hd). exists c. split; [|exact Hd].
    clear Ha Ha' Hnd. destruct b as [|y b]; [discriminate|].
    change ("." ++ String y b) with (String "." (String y b)).
    induction a as [|x a IH]; cbn [append].
    - exact Hc.
    - destruct (a ++ String "." (String y b)) eqn:E; [|exact IH].
      destruct a; discriminate E. }
  assert (Hint : int_of_string (a ++ "." ++ b) = Raise ValueError).
  { unfold int_of_string.
    assert (Hstrip : strip (a ++ "." ++ b) = a ++ "." ++ b).
    { unfold strip.
      assert (Hns : all_chars (fun c => negb (is_space c)) (a ++ "." ++ b) = true).
      { rewrite !all_chars_app. cbn.
        rewrite (all_chars_impl is_digit (fun c => negb (is_space c)) a),
                (all_chars_impl is_digit (fun c => negb (is_space c)) b);
          try assumption; try reflexivity;
          intros c Hc; rewrite (digit_not_space c Hc); reflexivity. }
      assert (Hl : lstrip (a ++ "." ++ b) = a ++ "." ++ b).
      { destruct a as [|x a]; [discriminate|]. cbn in *.
        apply andb_true_iff in Ha' as [Hx _].
        rewrite (digit_not_space x Hx). reflexivity. }
      rewrite Hl. apply rstrip_no_space. exact Hns. }
    rewrite Hstrip.
    assert (Hd : int_digits 0 false (a ++ "." ++ b) = Raise ValueError).
    { change ("." ++ b) with (String "." b).
      apply int_digits_stops; [exact Ha' | reflexivity | discriminate]. }
    destruct a as [|x a]; [discriminate|].
    cbn in Ha'. apply andb_true_iff in Ha' as [Hx _].
    cbn [append] in *.
    destruct x as [[] [] [] [] [] [] [] []]; try discriminate Hx; exact Hd. }
  destruct Hlast as (c & Hc & Hdc).
  unfold moreDP3. cbn [stage_phaseshift stage_applycal bind].
  unfold stage_averaging, freq_token. cbn [str int].
  rewrite Hnd, Hc. cbn [bind]. rewrite (digit_not_alpha c Hdc). cbn [negb].
  rewrite Hint. destruct timeavg; reflexivity.
Qed.

End StageFacts.

Section StageExamples.

Local Open Scope nat_scope.
Local Open Scope string_scope.

Lemma moreDP3_phaseshift_without_comma_witness :
  moreDP3 Examples.open_example (Some "[16h06m07.6 55d21m35.4]") None None false
    false None (init Examples.two_sets) = Raise IndexError.
Proof.
  apply (@moreDP3_phaseshift_without_comma Examples.open_example
           "[16h06m07.6 55d21m35.4]" None None false false None
           (init Examples.two_sets)).
  reflexivity.
Defined.

Lemma stage_phaseshift_two_coordinates_witness :
  stage_phaseshift (Some ("[16h06m07.6" ++ "," ++ "55d21m35.4]"))
    (init Examples.two_sets) =
    Ok (add_cmd ["ps.type=phaseshifter";
                 "ps.phasecenter=[" ++ strip_brackets "[16h06m07.6" ++ "," ++
                 strip_brackets "55d21m35.4]" ++ "]"]
          (add_step "ps" (init Examples.two_sets))).
Proof.
  apply (@stage_phaseshift_two_coordinates "[16h06m07.6" "55d21m35.4]"
           (init Examples.two_sets)); reflexivity.
Defined.

Lemma stage_averaging_integers_witness :
  stage_averaging (Some (PyInt 8)) (Some (PyInt 4)) (init Examples.two_sets) =
    Ok (add_cmd ["avg.timestep=" ++ str_of_Z 4]
          (add_cmd ["avg.freqstep=" ++ str_of_Z 8]
             (add_cmd ["avg.type=averager"] (add_step "avg" (init Examples.two_sets))))).
Proof.
  apply (@stage_averaging_integers 8 4 (init Examples.two_sets)). lia.
Defined.

Lemma moreDP3_freqavg_decimal_witness :
  moreDP3 Examples.open_example None (Some (PyStr ("2" ++ "." ++ "5"))) None false
    false None (init Examples.two_sets) = Raise ValueError /\
  moreDP3 Examples.open_example None (Some (PyStr EmptyString)) None false false
    None (init Examples.two_sets) = Raise IndexError.
Proof.
  apply (@moreDP3_freqavg_decimal Examples.open_example "2" "5" None false false
           (init Examples.two_sets)); reflexivity.
Defined.

End StageExamples.

Section ApplycalFacts.

Local Open Scope nat_scope.
Local Open Scope string_scope.

Variable open_file : string -> result h5file.

Lemma index_0_nil (A : Type) : index (@nil A) 0 = Raise IndexError.
Proof. reflexivity. Qed.

(** [isfulljones] answers [True] exactly for a file that can be opened and
    whose first solution table lists [pol] among its axes and has a
    polarisation axis of four entries; the other tables are not looked at. *)
Theorem isfulljones_true_iff (h5 : string) :
  isfulljones open_file h5 = Ok true <->
  exists T name st rest p,
    open_file h5 = Ok T /\ sol000 T = (name, st) :: rest /\
    contains "pol" (AXES st) = true /\ pol st = Some p /\ List.length p = 4.
Proof.
  unfold isfulljones. split.
  - destruct (open_file h5) as [T|]; cbn [bind]; [|discriminate].
    destruct (sol000 T) as [|[name st] rest] eqn:Hsol.
    { rewrite index_0_nil. discriminate. }
    rewrite index_0_cons. cbn [bind snd].
    destruct (contains "pol" (AXES st)) eqn:Hax; [|discriminate].
    destruct (pol st) as [p|] eqn:Hpol; [|discriminate].
    intros H. injection H as H. apply Nat.eqb_eq in H.
    exists T, name, st, rest, p. repeat split; assumption.
  - intros (T & name & st & rest & p & Hopen & Hsol & Hax & Hpol & Hlen).
    rewrite Hopen. cbn [bind]. rewrite Hsol, index_0_cons. cbn [bind snd].
    rewrite Hax, Hpol, Hlen. reflexivity.
Qed.

(** A solution file without any solution table stops [moreDP3] with
    [IndexError], whatever averaging is asked for. *)
Theorem moreDP3_applycal_no_table (h5 : string) (T : h5file)
    (freqavg timeavg : option pyval) (concat applybeam : bool) (s : SubtractDP3) :
  open_file h5 = Ok T -> sol000 T = [] ->
  moreDP3 open_file None freqavg timeavg concat applybeam (Some h5) s =
    Raise IndexError.
Proof.
  intros Hopen Hsol. unfold moreDP3. cbn [stage_phaseshift bind].
  unfold stage_applycal, isfulljones. rewrite Hopen. cbn [bind].
  rewrite Hsol, index_0_nil. reflexivity.
Qed.

Lemma ac_name_inj (n m : nat) : ac_name n = ac_name m -> n = m.
Proof.
  unfold ac_name. intros H. apply append_inj_l in H.
  apply str_of_nat_inj. exact H.
Qed.

(** In the branch that is not fulljones the apply steps are as many as the
    solution tables of the file, and their names are pairwise different. *)
Theorem applycal_step_names_distinct (h5 : string) (T : h5file) (s : SubtractDP3) :
  isfulljones open_file h5 = Ok false -> open_file h5 = Ok T ->
  exists names,
    stage_applycal open_file (Some h5) s =
      Ok {| mslist := mslist s;
            cmd := cmd s ++ flat_map (ac_tokens h5) (enumerate (map fst (sol000 T)));
            steps := steps s ++ names |} /\
    List.length names = List.length (sol000 T) /\
    NoDup names.
Proof.
  intros Hfj Hopen. unfold stage_applycal. rewrite Hfj. cbn [bind].
  rewrite Hopen. cbn [bind]. rewrite applycal_loop_spec.
  eexists. split; [reflexivity|]. split.
  - rewrite length_map, length_seq, length_map. reflexivity.
  - apply NoDup_map_injective; [|apply seq_NoDup].
    intros n m. apply ac_name_inj.
Qed.

End ApplycalFacts.

Section ApplycalExamples.

Local Open Scope nat_scope.
Local Open Scope string_scope.

Lemma moreDP3_applycal_no_table_witness :
  moreDP3 (fun _ => Ok {| sol000 := [] |}) None None None false false
    (Some "empty.h5") (init Examples.two_sets) = Raise IndexError.
Proof.
  apply (@moreDP3_applycal_no_table (fun _ => Ok {| sol000 := [] |}) "empty.h5"
           {| sol000 := [] |} None None false false (init Examples.two_sets));
    reflexivity.
Defined.

Lemma applycal_step_names_distinct_witness :
  exists names,
    stage_applycal Examples.open_example (Some "diagonal.h5") (init Examples.two_sets) =
      Ok {| mslist := mslist (init Examples.two_sets);
            cmd := cmd (init Examples.two_sets) ++
                   flat_map (ac_tokens "diagonal.h5")
                     (enumerate (map fst (sol000 Examples.diagonal_file)));
            steps := steps (init Examples.two_sets) ++ names |} /\
    List.length names = List.length (sol000 Examples.diagonal_file) /\
    NoDup names.
Proof.
  apply (@applycal_step_names_distinct Examples.open_example "diagonal.h5"
           Examples.diagonal_file (init Examples.two_sets)); reflexivity.
Defined.

End ApplycalExamples.

Section PredictThenMore.

Local Open Scope nat_scope.
Local Open Scope string_scope.

Variable open_file : string -> result h5file.
Variable sh : string -> bool.

Lemma prefix_head2 (a b : ascii) (p t : string) :
  String.prefix (String a (String b p)) t = true ->
  exists t', t = String a (String b t').
Proof.
  destruct t as [|c0 [|c1 t]]; cbn; try discriminate.
  - destruct (ascii_dec a c0); discriminate.
  - destruct (ascii_dec a c0) as [->|]; [|discriminate].
    destruct (ascii_dec b c1) as [->|]; [|discriminate].
    intros _. exists t. reflexivity.
Qed.

Lemma moreDP3_token_not_predict (t : string) :
  moreDP3_token t = true -> String.prefix "predict." t = false.
Proof.
  unfold moreDP3_token, moreDP3_prefixes. cbn [existsb]. intros H.
  repeat (apply orb_true_iff in H as [H|H];
          [apply prefix_head2 in H as (t' & ->); reflexivity|]).
  discriminate H.
Qed.

(** The main program calls [predict], then [run], then [moreDP3], then [run].
    After the first [run] the predict tokens are gone from the token list
    but [predict] is still in the step list: every later [moreDP3] keeps it
    as the first step and names it in its [steps=] token, while no token of
    the command it builds begins with [predict.]. *)
Theorem predict_step_survives_run (ms : list string)
    (sourcedb : option string) (subtract : bool) (h5parm : option string)
    (type : string) (w : world) :
  (forall line, sh line = true) ->
  exists w1 s1,
    run sh type w (predict sourcedb subtract h5parm (init ms)) = (w1, Ok s1) /\
    cmd s1 = base_cmd /\ steps s1 = ["predict"] /\
    forall phaseshift freqavg timeavg concat applybeam applycal_h5 s2,
      moreDP3 open_file phaseshift freqavg timeavg concat applybeam applycal_h5 s1
        = Ok s2 ->
      exists names,
        steps s2 = "predict" :: names /\
        In ("steps=[" ++ join "," ("predict" :: names) ++ "]") (cmd s2) /\
        Forall (fun t => String.prefix "predict." t = false) (cmd s2).
Proof.
  intros Hsh. unfold run.
  destruct (@run_loop_ok sh type Hsh
              (enumerate (mslist (predict sourcedb subtract h5parm (init ms)))) w
              (predict sourcedb subtract h5parm (init ms))) as (w1 & Hrun).
  rewrite Hrun. eexists. eexists. split; [reflexivity|].
  cbn [cmd steps add_cmd]. split; [reflexivity|].
  assert (Hst : steps (predict sourcedb subtract h5parm (init ms)) = ["predict"])
    by (destruct subtract; reflexivity).
  split; [exact Hst|].
  intros phaseshift freqavg timeavg concat applybeam applycal_h5 s2 H.
  pose proof (@moreDP3_appends open_file _ _ _ _ _ _ _ _ H)
    as (_ & toks & names & Hc & Hs & Ht & _).
  cbn [cmd steps] in Hc, Hs. rewrite Hst in Hs. cbn [app] in Hs.
  exists names. split; [exact Hs|]. split.
  - rewrite <- Hs. apply (@moreDP3_steps_token_in open_file _ _ _ _ _ _ _ _) with (2 := H).
    cbn [steps]. rewrite Hst. repeat constructor.
  - rewrite Hc. apply Forall_app. split; [repeat constructor|].
    constructor; [reflexivity|].
    apply Forall_impl with (2 := Ht). apply moreDP3_token_not_predict.
Qed.

End PredictThenMore.

Section PredictThenMoreExamples.

Local Open Scope nat_scope.
Local Open Scope string_scope.

Lemma predict_step_survives_run_witness :
  exists w1 s1,
    run Examples.sh_ok "predict" empty_world
      (predict (Some "sky.db") true (Some "sol.h5") (init Examples.two_sets))
      = (w1, Ok s1) /\
    cmd s1 = base_cmd /\ steps s1 = ["predict"] /\
    forall phaseshift freqavg timeavg concat applybeam applycal_h5 s2,
      moreDP3 Examples.open_example phaseshift freqavg timeavg concat applybeam
        applycal_h5 s1 = Ok s2 ->
      exists names,
        steps s2 = "predict" :: names /\
        In ("steps=[" ++ join "," ("predict" :: names) ++ "]") (cmd s2) /\
        Forall (fun t => String.prefix "predict." t = false) (cmd s2).
Proof.
  apply (@predict_step_survives_run Examples.open_example Examples.sh_ok
           Examples.two_sets (Some "sky.db") true (Some "sol.h5") "predict"
           empty_world).
  intros line. reflexivity.
Defined.

End PredictThenMoreExamples.

(** ** The history lookup *)

Section HistoryFacts.

Import History.
Local Open Scope nat_scope.
Local Open Scope string_scope.

Variable popen : string -> string.
Variable float_accepts : string -> bool.

Lemma prefix_length (a s : string) :
  String.prefix a s = true -> String.length a <= String.length s.
Proof.
  revert a. induction s as [|y s IH]; intros [|x a]; cbn; try lia; try discriminate.
  destruct (ascii_dec x y); [|discriminate].
  intros H. apply IH in H. lia.
Qed.

(** the second half of the test in [parse_history] follows from the first *)
Lemma contains_length (sub s : string) :
  contains sub s = true -> String.length sub <= String.length s.
Proof.
  induction s as [|y s IH]; cbn [contains]; intros H.
  - apply orb_true_iff in H as [H|H]; [|discriminate]. apply prefix_length. exact H.
  - apply orb_true_iff in H as [H|H]; [apply prefix_length; exact H|].
    apply IH in H. cbn. lia.
Qed.

Lemma first_item_spec (h : string) (hist : list string) :
  match first_item h hist with
  | Some item =>
      exists pre post,
        hist = (pre ++ item :: post)%list /\
        Forall (fun x => contains h x = false) pre /\
        contains h item = true
  | None => Forall (fun x => contains h x = false) hist
  end.
Proof.
  induction hist as [|x hist IH]; cbn [first_item]; [constructor|].
  destruct (contains h x) eqn:Hc.
  - pose proof (contains_length h x Hc) as Hl. apply Nat.leb_le in Hl.
    rewrite Hl. cbn [andb]. exists [], hist. repeat split; [constructor | exact Hc].
  - cbn [andb]. destruct (first_item h hist) as [item|].
    + destruct IH as (pre & post & -> & Hpre & Hitem).
      exists (x :: pre), post. repeat split; [constructor; assumption | exact Hitem].
    + constructor; assumption.
Qed.

Lemma split_on_from_fields (sep : ascii) (s cur : string) :
  no_char sep cur = true ->
  Forall (fun x => no_char sep x = true) (split_on_from sep cur s).
Proof.
  revert cur. induction s as [|c s IH]; intros cur Hcur; cbn [split_on_from].
  - repeat constructor. exact Hcur.
  - destruct (Ascii.eqb c sep) eqn:E.
    + constructor; [exact Hcur | apply IH; reflexivity].
    + apply IH. rewrite no_char_app, Hcur. unfold no_char. cbn. rewrite E. reflexivity.
Qed.

(** [parse_history] returns the first of the fields of the command's
    output, taken between single spaces, that contains the item asked for;
    the field has no space in it; [None] is returned exactly when no field
    contains the item. *)
Theorem parse_history_first_field (ms hist_item : string) :
  let hist := split_on " " (popen (history_command ms hist_item)) in
  match parse_history popen ms hist_item with
  | Some item =>
      exists pre post,
        hist = (pre ++ item :: post)%list /\
        Forall (fun x => contains hist_item x = false) pre /\
        contains hist_item item = true /\
        no_char " " item = true
  | None => Forall (fun x => contains hist_item x = false) hist
  end.
Proof.
  cbv zeta. unfold parse_history.
  pose proof (first_item_spec hist_item
                (split_on " " (popen (history_command ms hist_item)))) as H.
  destruct (first_item _ _) as [item|]; [|exact H].
  destruct H as (pre & post & Heq & Hpre & Hitem).
  exists pre, post. repeat split; try assumption.
  pose proof (split_on_from_fields " " (popen (history_command ms hist_item))
                EmptyString eq_refl) as Hf.
  fold (split_on " " (popen (history_command ms hist_item))) in Hf.
  rewrite Heq in Hf. apply Forall_app in Hf as [_ Hf].
  inversion Hf; assumption.
Qed.

Lemma digit_runs_from_digits (s cur : string) :
  all_chars is_digit cur = true ->
  Forall (fun r => isdigit r = true) (digit_runs_from cur s).
Proof.
  revert cur. induction s as [|c s IH]; intros cur Hcur; cbn [digit_runs_from].
  - destruct cur; repeat constructor. exact Hcur.
  - destruct (is_digit c) eqn:Hc.
    + apply IH. rewrite all_chars_app, Hcur. cbn. rewrite Hc. reflexivity.
    + destruct cur; [apply IH; reflexivity|].
      constructor; [exact Hcur | apply IH; reflexivity].
Qed.

Lemma index_In (A : Type) (l : list A) (i : Z) (a : A) :
  index l i = Ok a -> In a l.
Proof.
  unfold index.
  destruct (_ && _)%bool; [|discriminate].
  destruct (nth_error l _) eqn:E; [|discriminate].
  intros H. injection H as <-. exact (nth_error_In _ _ E).
Qed.

Lemma decimal_value_nonneg (s : string) : (0 <= decimal_value s)%Z.
Proof.
  unfold decimal_value.
  assert (H : forall l acc, (0 <= acc)%Z ->
            (0 <= fold_left (fun a c => 10 * a + digit_val c) l acc)%Z).
  { induction l as [|c l IH]; intros acc Hacc; cbn [fold_left]; [exact Hacc|].
    apply IH. assert (0 <= digit_val c)%Z by (unfold digit_val; lia). lia. }
  apply H. lia.
Qed.

Lemma round_binary64_nonneg (n : Z) : (0 <= n)%Z -> (0 <= round_binary64 n)%Z.
Proof.
  intros Hn. unfold round_binary64.
  destruct (n <? 2 ^ 53)%Z; [exact Hn|]. cbv zeta.
  assert (0 <= Z.shiftr n (Z.log2 n - 52))%Z by (apply Z.shiftr_nonneg; exact Hn).
  assert (0 <= 2 ^ (Z.log2 n - 52))%Z by (apply Z.pow_nonneg; lia).
  destruct (_ || _)%bool; apply Z.mul_nonneg_nonneg; lia.
Qed.

(** The string [get_time_preavg_factor] tests is a run of digits, so only
    its first branch is ever taken: the function returns an integer, which
    is not negative, or raises; it returns neither a float nor [None]. *)
Theorem get_time_preavg_factor_integer (ms : string) :
  match get_time_preavg_factor popen float_accepts ms with
  | Returns (IntFactor z) => (0 <= z)%Z
  | Returns (FloatFactor _) => False
  | Returns NoFactor => False
  | Throws _ => True
  end.
Proof.
  unfold get_time_preavg_factor.
  destruct (parse_history popen ms parse_str) as [item|]; [|exact I].
  destruct (index _ 0) as [avg_num|] eqn:E; [|exact I].
  apply index_In in E.
  pose proof (digit_runs_from_digits (replace parse_str EmptyString item)
                EmptyString eq_refl) as Hall.
  rewrite Forall_forall in Hall. rewrite (Hall _ E).
  unfold int_float. destruct (2 ^ 1024 <=? _)%Z; [exact I|].
  apply round_binary64_nonneg, decimal_value_nonneg.
Qed.

Lemma prefix_app (a t : string) : String.prefix a (a ++ t) = true.
Proof.
  induction a as [|x a IH]; cbn; [apply prefix_nil|].
  destruct (ascii_dec x x); [exact IH | contradiction].
Qed.

Lemma replace_from_skip (old new s t : string) :
  replace_from old new (String.length s) (s ++ t) = replace_from old new 0 t.
Proof. induction s as [|c s IH]; cbn; [reflexivity | exact IH]. Qed.

(** an occurrence at the very beginning is removed *)
Lemma replace_prefix (c : ascii) (old t : string) :
  replace (String c old) EmptyString (String c old ++ t) =
  replace (String c old) EmptyString t.
Proof.
  unfold replace. cbn [append replace_from].
  change (String c (old ++ t)) with (String c old ++ t).
  rewrite prefix_app. cbn [append].
  replace (String.length (String c old) - 1) with (String.length old)
    by (cbn [String.length]; lia).
  apply replace_from_skip.
Qed.

(** characters that cannot begin an occurrence are copied *)
Lemma replace_other_head (c : ascii) (old : string) (x : ascii) (t : string) :
  x <> c ->
  replace (String c old) EmptyString (String x t) =
  String x (replace (String c old) EmptyString t).
Proof.
  intros Hx. unfold replace. cbn [replace_from String.prefix].
  destruct (ascii_dec c x) as [->|_]; [contradiction|]. reflexivity.
Qed.

Lemma replace_digits (c : ascii) (old d t : string) :
  is_digit c = false -> all_chars is_digit d = true ->
  replace (String c old) EmptyString (d ++ t) =
  d ++ replace (String c old) EmptyString t.
Proof.
  intros Hc. induction d as [|x d IH]; intros Hd; [reflexivity|].
  cbn in Hd. apply andb_true_iff in Hd as [Hx Hd]. cbn [append].
  rewrite replace_other_head by (intros ->; congruence).
  rewrite (IH Hd). reflexivity.
Qed.

Lemma digit_runs_from_app (d t cur : string) :
  all_chars is_digit d = true ->
  digit_runs_from cur (d ++ t) = digit_runs_from (cur ++ d) t.
Proof.
  revert cur. induction d as [|x d IH]; intros cur Hd; cbn [append].
  - rewrite append_nil_r. reflexivity.
  - cbn in Hd. apply andb_true_iff in Hd as [Hx Hd].
    cbn [digit_runs_from]. rewrite Hx, (IH _ Hd), append_assoc. reflexivity.
Qed.

(** For a history field [demixer.timestep=N], [N] a run of digits that ends
    the field or is followed by white space, the factor is the integer [N]
    denotes, provided it is below [2^53], where [float] is exact. *)
Theorem get_time_preavg_factor_value (ms d rest : string) :
  parse_history popen ms parse_str = Some (parse_str ++ d ++ rest) ->
  isdigit d = true ->
  match rest with EmptyString => true | String c _ => is_space c end = true ->
  (decimal_value d < 2 ^ 53)%Z ->
  get_time_preavg_factor popen float_accepts ms =
    Returns (IntFactor (decimal_value d)).
Proof.
  intros Hp Hd Hrest Hsmall. unfold get_time_preavg_factor. rewrite Hp.
  pose proof (isdigit_all_chars d Hd) as Hd'.
  assert (Hrep : exists r,
            replace parse_str EmptyString (parse_str ++ d ++ rest) = d ++ r /\
            match r with EmptyString => true | String c _ => negb (is_digit c) end
            = true).
  { unfold parse_str at 1 2. rewrite replace_prefix, replace_digits;
      [|reflexivity | exact Hd'].
    destruct rest as [|c rest].
    - exists EmptyString. split; reflexivity.
    - exists (String c (replace "demixer.timestep=" EmptyString rest)). split.
      + rewrite replace_other_head; [reflexivity|].
        intros ->. discriminate Hrest.
      + destruct (is_digit c) eqn:Hc; [|reflexivity].
        rewrite (digit_not_space c Hc) in Hrest. discriminate Hrest. }
  destruct Hrep as (r & -> & Hr).
  assert (Hruns : index (digit_runs (d ++ r)) 0 = Ok d).
  { unfold digit_runs. rewrite (digit_runs_from_app d r EmptyString Hd'). cbn [append].
    destruct d as [|x d]; [discriminate Hd|].
    destruct r as [|c r]; cbn [digit_runs_from].
    - apply index_0_cons.
    - apply negb_true_iff in Hr. rewrite Hr. apply index_0_cons. }
  rewrite Hruns, Hd. unfold int_float, round_binary64.
  apply Z.ltb_lt in Hsmall. rewrite Hsmall.
  apply Z.ltb_lt in Hsmall.
  assert (E : (2 ^ 1024 <=? decimal_value d)%Z = false).
  { apply Z.leb_gt. assert (2 ^ 53 < 2 ^ 1024)%Z by reflexivity. lia. }
  rewrite E. reflexivity.
Qed.

Lemma replace_from_keeps (p : ascii -> bool) (old s : string) :
  all_chars p s = true ->
  forall k, all_chars p (replace_from old EmptyString k s) = true.
Proof.
  induction s as [|c s IH]; intros H k; [reflexivity|].
  cbn in H. apply andb_true_iff in H as [Hc Hs].
  cbn [replace_from]. destruct k as [|k]; [|apply IH; exact Hs].
  destruct (String.prefix old (String c s)); cbn [append all_chars].
  - apply IH. exact Hs.
  - rewrite Hc. apply IH. exact Hs.
Qed.

Lemma digit_runs_from_none (s : string) :
  all_chars (fun c => negb (is_digit c)) s = true ->
  digit_runs_from EmptyString s = [].
Proof.
  induction s as [|c s IH]; cbn; [reflexivity|]. intros H.
  apply andb_true_iff in H as [Hc Hs]. apply negb_true_iff in Hc.
  rewrite Hc. apply IH. exact Hs.
Qed.

(** How the lookup fails: with [AttributeError] when [parse_history] has
    found no field (the method [replace] is then called on [None]), with
    [IndexError] when the field found holds no digit. *)
Theorem get_time_preavg_factor_errors (ms : string) :
  match parse_history popen ms parse_str with
  | None => get_time_preavg_factor popen float_accepts ms = Throws AttributeError
  | Some item =>
      all_chars (fun c => negb (is_digit c)) item = true ->
      get_time_preavg_factor popen float_accepts ms = Throws (Raised IndexError)
  end.
Proof.
  unfold get_time_preavg_factor.
  destruct (parse_history popen ms parse_str) as [item|]; [|reflexivity].
  intros Hnd. unfold digit_runs, replace.
  rewrite digit_runs_from_none by (apply replace_from_keeps; exact Hnd).
  reflexivity.
Qed.

End HistoryFacts.

Section HistoryExamples.

Import History.
Local Open Scope nat_scope.
Local Open Scope string_scope.

Lemma get_time_preavg_factor_value_witness :
  get_time_preavg_factor
    (fun _ => "2021-03-01 DPPP demixer.timestep=" ++ "4" ++ nl) (fun _ => true) "a.ms" =
    Returns (IntFactor (decimal_value "4")).
Proof.
  apply (@get_time_preavg_factor_value
           (fun _ => "2021-03-01 DPPP demixer.timestep=" ++ "4" ++ nl)
           (fun _ => true) "a.ms" "4" nl).
  - reflexivity.
  - reflexivity.
  - reflexivity.
  - reflexivity.
Defined.

End HistoryExamples.

(** ** More on the collector *)

Section CollectorMore.

Local Open Scope nat_scope.
Local Open Scope string_scope.

Variable A : Type.
Variable float : string -> result A.

Lemma append_columns_nil_r (c : columns A) : append_columns c (no_columns A) = c.
Proof. destruct c. unfold append_columns. cbn. rewrite !app_nil_r. reflexivity. Qed.

Lemma append_columns_assoc (c1 c2 c3 : columns A) :
  append_columns (append_columns c1 c2) c3 = append_columns c1 (append_columns c2 c3).
Proof. unfold append_columns. cbn. rewrite <- !app_assoc. reflexivity. Qed.

(** what a file adds to the six lists does not depend on what they hold *)
Lemma read_file_append (k : Z) (lines : list string) (c : columns A) :
  read_file float k lines c =
  match read_file float k lines (no_columns A) with
  | Ok m => Ok (append_columns c m)
  | Raise e => Raise e
  end.
Proof.
  unfold read_file.
  repeat match goal with
         | |- context [bind ?r _] =>
             match r with
             | bind _ _ => fail 1
             | _ => destruct r; cbn [bind]; [|reflexivity]
             end
         end.
  reflexivity.
Qed.

Lemma collect_from_append (k : Z) (files : list (list string)) :
  forall c,
    collect_from float k files c =
    match collect_from float k files (no_columns A) with
    | Ok m => Ok (append_columns c m)
    | Raise e => Raise e
    end.
Proof.
  induction files as [|lines files IH]; intros c; cbn [collect_from].
  - rewrite append_columns_nil_r. reflexivity.
  - rewrite (read_file_append k lines c).
    destruct (read_file float k lines (no_columns A)) as [m|e]; cbn [bind];
      [|reflexivity].
    rewrite (IH (append_columns c m)), (IH m).
    destruct (collect_from float k files (no_columns A)) as [m'|e]; [|reflexivity].
    rewrite append_columns_assoc. reflexivity.
Qed.

Lemma collect_from_app (k : Z) (f1 f2 : list (list string)) :
  forall c,
    collect_from float k (f1 ++ f2) c =
    bind (collect_from float k f1 c) (collect_from float k f2).
Proof.
  induction f1 as [|lines f1 IH]; intros c; cbn [app collect_from bind];
    [reflexivity|].
  destruct (read_file float k lines c) as [c'|e]; cbn [bind]; [apply IH | reflexivity].
Qed.

(** Reading two lists of files one after the other collects the lists of
    the first followed by the lists of the second: the concatenated lists
    the script builds for its [Total:] block are what one loop over the
    files of both variants would collect. *)
Theorem collect_concatenates (k : Z) (f1 f2 : list (list string))
    (c1 c2 : columns A) :
  collect float k f1 = Ok c1 -> collect float k f2 = Ok c2 ->
  collect float k (f1 ++ f2) = Ok (append_columns c1 c2).
Proof.
  unfold collect. intros H1 H2.
  rewrite collect_from_app, H1. cbn [bind].
  rewrite collect_from_append, H2. reflexivity.
Qed.

Lemma read_file_short (k : Z) (lines : list string) (c : columns A) :
  List.length lines < 4 -> read_file float k lines c = Raise IndexError.
Proof.
  intros H. unfold read_file, first_number, index.
  replace (-4 <? 0)%Z with true by reflexivity.
  assert (E : ((0 <=? Z.of_nat (List.length lines) + -4)
               && (Z.of_nat (List.length lines) + -4 <? Z.of_nat (List.length lines)))%Z
              = false).
  { apply andb_false_iff. left. apply Z.leb_gt. lia. }
  rewrite E. reflexivity.
Qed.

(** A file of fewer than four lines stops the collector with [IndexError],
    wherever it stands among the files: the files after it are not read and
    nothing of what was collected is kept. *)
Theorem collect_short_file (k : Z) (f1 f2 : list (list string))
    (lines : list string) (c1 : columns A) :
  collect float k f1 = Ok c1 -> List.length lines < 4 ->
  collect float k (f1 ++ lines :: f2) = Raise IndexError.
Proof.
  unfold collect. intros H1 Hshort.
  rewrite collect_from_app, H1. cbn [bind collect_from].
  rewrite read_file_short by exact Hshort. reflexivity.
Qed.

Lemma collect_from_length (k : Z) (files : list (list string)) :
  forall c c',
    collect_from float k files c = Ok c' ->
    List.length (results c') = List.length (results c) + List.length files.
Proof.
  induction files as [|lines files IH]; intros c c' H; cbn [collect_from] in H.
  - injection H as <-. cbn. lia.
  - destruct (read_file float k lines c) as [c1|e] eqn:E; [|discriminate H].
    cbn [bind] in H. rewrite (IH _ _ H).
    rewrite read_file_append in E.
    destruct (read_file float k lines (no_columns A)) as [m|] eqn:Em; [|discriminate E].
    injection E as <-. cbn [results append_columns].
    unfold read_file in Em.
    repeat match type of Em with
           | bind ?r _ = Ok _ => destruct r; cbn [bind] in Em; [|discriminate Em]
           end.
    injection Em as <-. cbn. rewrite length_app. cbn. lia.
Qed.

(** When a loop has read all its files, each of its six lists has exactly
    one entry per file. *)
Theorem collect_one_entry_per_file (k : Z) (files : list (list string))
    (c : columns A) :
  collect float k files = Ok c ->
  let n := List.length files in
  List.length (results c) = n /\ List.length (results_err c) = n /\
  List.length (pearson c) = n /\ List.length (pearson_err c) = n /\
  List.length (spearman c) = n /\ List.length (spearman_err c) = n.
Proof.
  intros H n.
  pose proof (collect_aligned float k files H) as (H1 & H2 & H3 & H4 & H5).
  unfold collect in H. apply collect_from_length in H. cbn in H.
  unfold n. repeat split; congruence.
Qed.

Lemma split_ws_from_tokens (s cur : string) :
  all_chars (fun c => negb (is_space c)) cur = true ->
  Forall (fun t => all_chars (fun c => negb (is_space c)) t = true)
    (split_ws_from cur s).
Proof.
  revert cur. induction s as [|c s IH]; intros cur Hcur; cbn [split_ws_from].
  - destruct cur; repeat constructor. exact Hcur.
  - destruct (is_space c) eqn:E.
    + destruct cur; [apply IH; reflexivity|].
      constructor; [exact Hcur | apply IH; reflexivity].
    + apply IH. rewrite all_chars_app, Hcur. cbn. rewrite E. reflexivity.
Qed.

(** The Pearson and Spearman values are handed to [float] without the
    parenthesis and the comma of the tuple they are printed in, and without
    white space. *)
Theorem first_number_is_bare (lines : list string) (i : Z) (s : string) :
  first_number lines i = Ok s ->
  no_char "(" s = true /\ no_char "," s = true /\
  all_chars (fun c => negb (is_space c)) s = true.
Proof.
  unfold first_number.
  destruct (index lines i) as [l|]; cbn [bind]; [|discriminate].
  destruct (index (split_ws l) 0) as [t|] eqn:Et; cbn [bind]; [|discriminate].
  intros H. injection H as <-.
  rewrite (replace_char "("), (replace_char ",").
  apply index_In in Et.
  pose proof (split_ws_from_tokens l EmptyString eq_refl) as Hall.
  rewrite Forall_forall in Hall. specialize (Hall _ Et).
  repeat split.
  - unfold no_char. apply all_chars_remove_char. apply no_char_remove_char.
  - apply no_char_remove_char.
  - apply all_chars_remove_char, all_chars_remove_char. exact Hall.
Qed.

Lemma replace_absent (old new s : string) :
  contains old s = false -> replace old new s = s.
Proof.
  unfold replace. induction s as [|c s IH]; intros H; [reflexivity|].
  cbn [contains] in H. apply orb_false_iff in H as [Hp Hs].
  cbn [replace_from]. rewrite Hp, (IH Hs). reflexivity.
Qed.

Lemma slope_prefix_removed (rest : string) :
  contains slope_prefix rest = false ->
  replace slope_prefix EmptyString (slope_prefix ++ rest) = rest.
Proof.
  intros Habs. unfold slope_prefix at 1 2. rewrite replace_prefix.
  apply replace_absent. exact Habs.
Qed.

Lemma read_file_line3 (k : Z) (lines : list string) (l : string)
    (c c' : columns A) :
  read_file float k lines c = Ok c' ->
  index lines 3 = Ok l ->
  exists x y r re,
    index (split_ws (replace slope_prefix EmptyString l)) 0 = Ok x /\
    index (split_ws (replace slope_prefix EmptyString l)) (-1) = Ok y /\
    float x = Ok r /\ float y = Ok re /\
    results c' = (results c ++ [r])%list /\
    results_err c' = (results_err c ++ [re])%list.
Proof.
  intros H H3. unfold read_file in H. rewrite H3 in H.
  destruct (first_number lines (-4)) as [s1|]; cbn [bind] in H; [|discriminate H].
  destruct (float s1) as [p|]; cbn [bind] in H; [|discriminate H].
  destruct (last_token lines k) as [s2|]; cbn [bind] in H; [|discriminate H].
  destruct (float s2) as [pe|]; cbn [bind] in H; [|discriminate H].
  destruct (first_number lines (-2)) as [s3|]; cbn [bind] in H; [|discriminate H].
  destruct (float s3) as [sp|]; cbn [bind] in H; [|discriminate H].
  destruct (last_token lines (-1)) as [s4|]; cbn [bind] in H; [|discriminate H].
  destruct (float s4) as [spe|]; cbn [bind] in H; [|discriminate H].
  destruct (index (split_ws (replace slope_prefix EmptyString l)) 0) as [x|]; cbn [bind] in H; [|discriminate H].
  destruct (float x) as [r|] eqn:Er; cbn [bind] in H; [|discriminate H].
  destruct (index (split_ws (replace slope_prefix EmptyString l)) (-1)) as [y|]; cbn [bind] in H; [|discriminate H].
  destruct (float y) as [re|] eqn:Ere; cbn [bind] in H; [|discriminate H].
  injection H as <-. exists x, y, r, re.
  split; [reflexivity|]. split; [reflexivity|].
  split; [exact Er|]. split; [exact Ere|]. split; reflexivity.
Qed.

(** On a line 3 of the form [Linear regression slope is REST], the phrase
    not occurring again in [REST], the slope is read from the first word of
    [REST] and its error from the last word, whatever stands between. *)
Theorem read_file_slope (k : Z) (lines : list string) (rest : string)
    (c c' : columns A) :
  read_file float k lines c = Ok c' ->
  index lines 3 = Ok (slope_prefix ++ rest) ->
  contains slope_prefix rest = false ->
  exists x y r re,
    index (split_ws rest) 0 = Ok x /\ index (split_ws rest) (-1) = Ok y /\
    float x = Ok r /\ float y = Ok re /\
    results c' = (results c ++ [r])%list /\
    results_err c' = (results_err c ++ [re])%list.
Proof.
  intros H H3 Habs.
  pose proof (read_file_line3 k lines c H H3) as Hl.
  rewrite (slope_prefix_removed rest Habs) in Hl. exact Hl.
Qed.

End CollectorMore.

Section CollectorExamples.

Local Open Scope nat_scope.
Local Open Scope string_scope.

Lemma collect_concatenates_witness :
  collect (@Ok string) (-3) ([MCExamples.result_lines] ++ [MCExamples.result_lines]) =
    Ok (append_columns
          {| results := ["1.05"]; results_err := ["0.02"]; pearson := ["0.91"];
             pearson_err := ["0.01"]; spearman := ["0.88"];
             spearman_err := ["0.03"] |}
          {| results := ["1.05"]; results_err := ["0.02"]; pearson := ["0.91"];
             pearson_err := ["0.01"]; spearman := ["0.88"];
             spearman_err := ["0.03"] |}).
Proof.
  apply (@collect_concatenates string (@Ok string) (-3) [MCExamples.result_lines]
           [MCExamples.result_lines]); reflexivity.
Defined.

Lemma collect_short_file_witness :
  collect (@Ok string) (-3)
    ([MCExamples.result_lines] ++ ["only one line"] :: [MCExamples.result_lines]) =
    Raise IndexError.
Proof.
  apply (@collect_short_file string (@Ok string) (-3) [MCExamples.result_lines]
           [MCExamples.result_lines] ["only one line"]
           {| results := ["1.05"]; results_err := ["0.02"]; pearson := ["0.91"];
              pearson_err := ["0.01"]; spearman := ["0.88"];
              spearman_err := ["0.03"] |}).
  - reflexivity.
  - cbn. lia.
Defined.

Lemma collect_one_entry_per_file_witness :
  let c := {| results := ["1.05"]; results_err := ["0.02"]; pearson := ["0.91"];
              pearson_err := ["0.03"]; spearman := ["0.88"];
              spearman_err := ["0.03"] |} in
  let n := List.length [MCExamples.result_lines] in
  List.length (results c) = n /\ List.length (results_err c) = n /\
  List.length (pearson c) = n /\ List.length (pearson_err c) = n /\
  List.length (spearman c) = n /\ List.length (spearman_err c) = n.
Proof.
  apply (@collect_one_entry_per_file string (@Ok string) (-1)
           [MCExamples.result_lines]).
  reflexivity.
Defined.

Lemma first_number_is_bare_witness :
  no_char "(" "0.91" = true /\ no_char "," "0.91" = true /\
  all_chars (fun c => negb (is_space c)) "0.91" = true.
Proof.
  apply (@first_number_is_bare MCExamples.result_lines (-4) "0.91").
  reflexivity.
Defined.

Lemma read_file_slope_witness :
  exists x y r re,
    index (split_ws ("1.05 +- 0.02" ++ nl)) 0 = Ok x /\
    index (split_ws ("1.05 +- 0.02" ++ nl)) (-1) = Ok y /\
    @Ok string x = Ok r /\ @Ok string y = Ok re /\
    results {| results := ["1.05"]; results_err := ["0.02"]; pearson := ["0.91"];
               pearson_err := ["0.01"]; spearman := ["0.88"];
               spearman_err := ["0.03"] |} = (results (no_columns string) ++ [r])%list /\
    results_err {| results := ["1.05"]; results_err := ["0.02"]; pearson := ["0.91"];
               pearson_err := ["0.01"]; spearman := ["0.88"];
               spearman_err := ["0.03"] |} = (results_err (no_columns string) ++ [re])%list.
Proof.
  apply (@read_file_slope string (@Ok string) (-3) MCExamples.result_lines
           ("1.05 +- 0.02" ++ nl) (no_columns string)); reflexivity.
Defined.

Lemma collect_last_line_witness :
  pearson_err {| results := ["1.05"]; results_err := ["0.02"]; pearson := ["0.91"];
                 pearson_err := ["0.03"]; spearman := ["0.88"];
                 spearman_err := ["0.03"] |} =
  spearman_err {| results := ["1.05"]; results_err := ["0.02"]; pearson := ["0.91"];
                  pearson_err := ["0.03"]; spearman := ["0.88"];
                  spearman_err := ["0.03"] |}.
Proof.
  apply (@collect_last_line string (@Ok string) [MCExamples.result_lines]).
  reflexivity.
Defined.

End CollectorExamples.

(** ** More on the aggregator *)

Section AggregatorMore.

Local Open Scope R_scope.

Lemma Sum_scale (A : Type) (f : A -> R) (k : R) (l : list A) :
  Sum (fun x => f x * k) l = Sum f l * k.
Proof.
  induction l as [|x l IH]; cbn; [ring|]. rewrite IH. ring.
Qed.

Lemma Sum_ge_term (A : Type) (f : A -> R) (l : list A) (a : A) :
  Forall (fun x => 0 <= f x) l -> In a l -> f a <= Sum f l.
Proof.
  intros H. induction H as [|x l Hx Hl IH]; intros Hin; [contradiction|].
  assert (0 <= Sum f l).
  { clear IH Hin. induction Hl as [|y l Hy Hl IH]; cbn; lra. }
  cbn. destruct Hin as [->|Hin]; [lra|]. specialize (IH Hin). lra.
Qed.

(** The uncertainty printed after a per-variant slope,
    [sem(v)*sqrt(sum((e/sum(e^2))^2))], is the standard error of the slopes
    divided by the root of the sum of the squared errors. *)
Theorem variant_slope_error_simplified (v e : list R) :
  0 < Sum (fun x => x ^ 2) e ->
  variant_slope_error v e = standard_error v / sqrt (Sum (fun x => x ^ 2) e).
Proof.
  intros HS. unfold variant_slope_error, np_div_scalar, np_power2.
  rewrite sem_standard_error, !np_sum_map, Sum_map.
  set (S := Sum (fun x => x ^ 2) e) in *.
  rewrite (Sum_ext (fun x => (x / S) ^ 2) (fun x => x ^ 2 * (/ S) ^ 2))
    by (intros x; unfold Rdiv; ring).
  rewrite Sum_scale. fold S.
  replace (S * (/ S) ^ 2) with (/ S) by (field; lra).
  rewrite sqrt_inv. reflexivity.
Qed.

Lemma variant_slope_error_simplified_witness :
  variant_slope_error [1; 2] [1; 1] =
    standard_error [1; 2] / sqrt (Sum (fun x => x ^ 2) [1; 1]).
Proof.
  apply (@variant_slope_error_simplified [1; 2] [1; 1]). cbn. lra.
Defined.

(** The combined uncertainty of positive errors is positive and at most the
    smallest of them. *)
Theorem uncertainty_at_most_each_error (errs : list R) (e : R) :
  Forall (fun x => 0 < x) errs -> In e errs ->
  0 < uncertainty errs <= e.
Proof.
  intros Hpos Hin. rewrite uncertainty_combined. unfold combined_uncertainty.
  assert (He : 0 < e) by (rewrite Forall_forall in Hpos; exact (Hpos e Hin)).
  assert (Hterm : 1 / e ^ 2 <= Sum (fun x => 1 / x ^ 2) errs).
  { apply (Sum_ge_term (fun x => 1 / x ^ 2)); [|exact Hin].
    apply Forall_impl with (2 := Hpos). intros x Hx.
    apply Rlt_le, Rdiv_lt_0_compat; [lra | apply pow_lt; exact Hx]. }
  assert (He2 : 0 < e ^ 2) by (apply pow_lt; exact He).
  assert (Hinv : 0 < 1 / e ^ 2) by (apply Rdiv_lt_0_compat; lra).
  set (S := Sum (fun x => 1 / x ^ 2) errs) in *.
  assert (HS : 0 < S) by lra.
  split.
  - apply sqrt_lt_R0. apply Rdiv_lt_0_compat; lra.
  - rewrite <- (sqrt_pow2 e) by lra. apply sqrt_le_1_alt.
    apply Rmult_le_reg_r with (r := S); [exact HS|].
    replace (1 / S * S) with 1 by (field; lra).
    apply Rmult_le_reg_r with (r := / e ^ 2); [apply Rinv_0_lt_compat; exact He2|].
    replace (e ^ 2 * S * / e ^ 2) with S by (field; lra).
    unfold Rdiv in Hterm. lra.
Qed.

Lemma uncertainty_at_most_each_error_witness :
  0 < uncertainty [0.1; 0.2] <= 0.1.
Proof.
  apply (@uncertainty_at_most_each_error [0.1; 0.2] 0.1).
  - repeat constructor; lra.
  - left. reflexivity.
Defined.

Lemma Sum_equal_errors_values (v : list R) (e : R) :
  Sum (fun p => fst p / snd p ^ 2) (combine v (repeat e (List.length v))) =
  Sum (fun x => x) v / e ^ 2.
Proof.
  induction v as [|x v IH]; cbn [List.length repeat combine Sum fst snd].
  - unfold Rdiv. ring.
  - rewrite IH. unfold Rdiv. ring.
Qed.

Lemma Sum_equal_errors_weights (v : list R) (e : R) :
  Sum (fun p => 1 / snd p ^ 2) (combine v (repeat e (List.length v))) =
  INR (List.length v) / e ^ 2.
Proof.
  induction v as [|x v IH].
  - cbn. unfold Rdiv. ring.
  - cbn [List.length repeat combine Sum fst snd]. rewrite IH, S_INR.
    unfold Rdiv. ring.
Qed.

(** When all the errors are the same positive number, the weighted mean is
    the plain mean of the values, and the combined uncertainty is that
    error over the square root of the number of values. *)
Theorem equal_errors (v : list R) (e : R) :
  v <> [] -> 0 < e ->
  let errs := repeat e (List.length v) in
  weighted_mean v errs = Ok (mean v) /\
  uncertainty errs = e / sqrt (INR (List.length v)).
Proof.
  intros Hne He errs.
  assert (Hn : 0 < INR (List.length v)).
  { apply lt_0_INR. destruct v; [contradiction | cbn; apply Nat.lt_0_succ]. }
  assert (He2 : 0 < e ^ 2) by (apply pow_lt; exact He).
  split.
  - unfold errs. rewrite weighted_mean_aligned by (rewrite repeat_length; reflexivity).
    f_equal. unfold inverse_variance_mean, mean.
    rewrite Sum_equal_errors_values, Sum_equal_errors_weights. field. lra.
  - rewrite uncertainty_combined. unfold combined_uncertainty.
    assert (E : Sum (fun x => 1 / x ^ 2) errs = INR (List.length v) / e ^ 2).
    { rewrite <- Sum_equal_errors_weights. symmetry. unfold errs.
      apply (Sum_combine_snd (fun x => 1 / x ^ 2)).
      rewrite repeat_length. reflexivity. }
    rewrite E.
    replace (1 / (INR (List.length v) / e ^ 2)) with (e ^ 2 / INR (List.length v))
      by (field; lra).
    rewrite sqrt_div_alt by exact Hn. rewrite sqrt_pow2 by lra. reflexivity.
Qed.

Lemma equal_errors_witness :
  let errs := repeat 0.5 (List.length [1; 2; 6]) in
  weighted_mean [1; 2; 6] errs = Ok (mean [1; 2; 6]) /\
  uncertainty errs = 0.5 / sqrt (INR (List.length [1; 2; 6])).
Proof.
  apply (@equal_errors [1; 2; 6] 0.5).
  - discriminate.
  - lra.
Defined.

Lemma weighted_sums_between (lo hi : R) (v e : list R) :
  List.length v = List.length e ->
  Forall (fun x => 0 < x) e -> Forall (fun x => lo <= x <= hi) v ->
  lo * Sum (fun p => 1 / snd p ^ 2) (combine v e)
    <= Sum (fun p => fst p / snd p ^ 2) (combine v e)
    <= hi * Sum (fun p => 1 / snd p ^ 2) (combine v e).
Proof.
  revert e. induction v as [|x v IH]; intros [|y e] Hlen He Hv;
    try discriminate Hlen; cbn [combine Sum fst snd].
  - lra.
  - inversion He as [|? ? Hy He']; subst. inversion Hv as [|? ? Hx Hv']; subst.
    injection Hlen as Hlen. specialize (IH e Hlen He' Hv').
    assert (Hw : 0 < 1 / y ^ 2).
    { apply Rdiv_lt_0_compat; [lra | apply pow_lt; exact Hy]. }
    replace (x / y ^ 2) with (x * (1 / y ^ 2)) by (unfold Rdiv; ring).
    assert (lo * (1 / y ^ 2) <= x * (1 / y ^ 2))
      by (apply Rmult_le_compat_r; lra).
    assert (x * (1 / y ^ 2) <= hi * (1 / y ^ 2))
      by (apply Rmult_le_compat_r; lra).
    lra.
Qed.

(** With positive errors the weighted mean lies between the smallest and
    the largest of the values it averages. *)
Theorem weighted_mean_between (lo hi : R) (v e : list R) :
  List.length v = List.length e -> v <> [] ->
  Forall (fun x => 0 < x) e -> Forall (fun x => lo <= x <= hi) v ->
  exists m, weighted_mean v e = Ok m /\ lo <= m <= hi.
Proof.
  intros Hlen Hne He Hv. rewrite (weighted_mean_aligned v e Hlen).
  eexists. split; [reflexivity|]. unfold inverse_variance_mean.
  pose proof (@weighted_sums_between lo hi v e Hlen He Hv) as [Hlo Hhi].
  assert (HD : 0 < Sum (fun p => 1 / snd p ^ 2) (combine v e)).
  { rewrite (Sum_combine_snd (fun x => 1 / x ^ 2) v e Hlen).
    apply inverse_square_pos; [|exact He].
    intros E. rewrite E in Hlen. destruct v; [contradiction | discriminate]. }
  set (D := Sum (fun p => 1 / snd p ^ 2) (combine v e)) in *.
  set (N := Sum (fun p => fst p / snd p ^ 2) (combine v e)) in *.
  split.
  - apply Rmult_le_reg_r with (r := D); [exact HD|].
    replace (N / D * D) with N by (field; lra). exact Hlo.
  - apply Rmult_le_reg_r with (r := D); [exact HD|].
    replace (N / D * D) with N by (field; lra). exact Hhi.
Qed.

Lemma weighted_mean_between_witness :
  exists m, weighted_mean [1; 2] [0.1; 0.2] = Ok m /\ 1 <= m <= 2.
Proof.
  apply (@weighted_mean_between 1 2 [1; 2] [0.1; 0.2]).
  - reflexivity.
  - discriminate.
  - repeat constructor; lra.
  - repeat constructor; lra.
Defined.

(** a [float] that reads every string as [1], for the layout example *)
Lemma script_prints_witness :
  let i := {| a399_rudnick := [MCExamples.result_lines];
              a401_rudnick := [MCExamples.result_lines];
              bridge_rudnick := [MCExamples.result_lines];
              a399_cb := [MCExamples.result_lines];
              a401_cb := [MCExamples.result_lines];
              bridge_cb := [MCExamples.result_lines] |} in
  let c := {| results := [1]; results_err := [1]; pearson := [1];
              pearson_err := [1]; spearman := [1]; spearman_err := [1] |} in
  exists u1 u2 u3 v1 v2 v3 t1 t2 t3,
    variant_block c = Ok u1 /\ variant_block c = Ok u2 /\
    variant_block c = Ok u3 /\
    variant_block c = Ok v1 /\ variant_block c = Ok v2 /\
    variant_block c = Ok v3 /\
    total_block c c = Ok t1 /\ total_block c c = Ok t2 /\
    total_block c c = Ok t3 /\
    script (fun _ => Ok 1) i =
      Ok {| UV_Subtract := (u1, u2, u3); Rudnick := (v1, v2, v3);
            Total := (t1, t2, t3) |}.
Proof.
  apply (@script_prints (fun _ => Ok 1)
           {| a399_rudnick := [MCExamples.result_lines];
              a401_rudnick := [MCExamples.result_lines];
              bridge_rudnick := [MCExamples.result_lines];
              a399_cb := [MCExamples.result_lines];
              a401_cb := [MCExamples.result_lines];
              bridge_cb := [MCExamples.result_lines] |}); reflexivity.
Defined.

End AggregatorMore.
